(** * K_Spk v2 precedence parser: tokenizer, shunting-yard builder, validator

    Shallow embedding of [src/core/k_spk_v2_precedence_parser.py] and the
    properties of its specification.

    Conventions of the embedding.
    - A Python [str] is the list of its code points; a one-character string
      (a "symbol") is a single code point.
    - Python lists used as stacks ([append] / [pop()] / [[-1]]) are Rocq lists
      whose head is the top of the stack, that is, the last element of the
      Python list.
    - A raised exception is the [Raise] outcome of the result type [Exc].
    - [str.isspace] and [str.lower] come from the Unicode database of the
      interpreter; the parser is parameterised by them, and the fixtures use
      [py_isspace] and [ascii_lower].
    - The [parent] back-pointer that [add_child] writes is not read by any
      function of the parser and is left out of the tree.
    - [_build_expression_tree] and [parse_to_ast] are the two functions short
      of the debug line that ends the builder. That line walks the tree with
      [depth], under the recursion limit of the interpreter:
      [_build_expression_tree_bounded] and [parse_to_ast_bounded] are the
      functions with it. *)

From Stdlib Require Import ZArith String Ascii List DecimalString Lia Bool.
From stdpp Require Import gmap.
Import ListNotations.

(** ** Strings *)

Definition char := N.
Definition str := list char.

(** An ASCII literal as a Python string. *)
Definition py (s : string) : str :=
  List.map N_of_ascii (list_ascii_of_string s).

(** [str(n)] / [f"{n}"] for an [int]. *)
Definition str_of_Z (z : Z) : str :=
  py (NilZero.string_of_int (Z.to_int z)).

Fixpoint startswith (p s : str) : bool :=
  match p, s with
  | [], _ => true
  | _ :: _, [] => false
  | a :: p', b :: s' => N.eqb a b && startswith p' s'
  end.

(** [p in s] for two strings: [p] occurs in [s] as a contiguous run. *)
Fixpoint contains (p s : str) : bool :=
  startswith p s ||
  match s with
  | [] => false
  | _ :: s' => contains p s'
  end.

(** The whitespace test of CPython 3 ([Py_UNICODE_ISSPACE]). *)
Definition py_isspace (c : char) : bool :=
  ((9 <=? c) && (c <=? 13) || (28 <=? c) && (c <=? 32) ||
   (c =? 133) || (c =? 160) || (c =? 5760) ||
   (8192 <=? c) && (c <=? 8202) || (c =? 8232) || (c =? 8233) ||
   (c =? 8239) || (c =? 8287) || (c =? 12288))%N.

(** [str.lower] on the ASCII letters; other code points are kept. *)
Definition ascii_lower (s : str) : str :=
  List.map (fun c => if ((65 <=? c) && (c <=? 90))%N then (c + 32)%N else c) s.

(** ** Data model *)

Inductive SymbolType :=
| CORE | MODIFIER | OPERATOR | DELIMITER | ROUTING | TEMPORAL.

Definition SymbolType_eqb (a b : SymbolType) : bool :=
  match a, b with
  | CORE, CORE | MODIFIER, MODIFIER | OPERATOR, OPERATOR
  | DELIMITER, DELIMITER | ROUTING, ROUTING | TEMPORAL, TEMPORAL => true
  | _, _ => false
  end.

(** Python values of which the parser only reads the truth value. *)
Inductive PyVal :=
| PNone
| PBool (b : bool)
| PInt (z : Z)
| PStr (s : str).

Definition truthy (v : PyVal) : bool :=
  match v with
  | PNone => false
  | PBool b => b
  | PInt z => negb (z =? 0)%Z
  | PStr s => match s with [] => false | _ => true end
  end.

(** A dictionary of the program (a symbol-table entry, a token's metadata),
    restricted to the keys the parser reads or writes, each at the type the
    table format gives it: ['meaning'] and ['category'] are strings,
    ['precedence'] an integer; ['error'] may hold any value. A key that is
    absent is [None]. *)
Record Dict := mkDict {
  d_meaning : option str;
  d_category : option str;
  d_precedence : option Z;
  d_error : option PyVal;
  d_reason : option str
}.

Definition empty_dict : Dict := mkDict None None None None None.

(** Dictionaries are objects. The entries of the symbol table live in a store
    and are named by their location; a dictionary that the tokenizer creates
    is owned by its token alone. *)
Definition loc := nat.

Inductive DictRef :=
| Fresh (d : Dict)
| Entry (l : loc).

Definition Heap := loc -> Dict.

Definition deref (heap : Heap) (r : DictRef) : Dict :=
  match r with
  | Fresh d => d
  | Entry l => heap l
  end.

Record KSpkToken := mkToken {
  symbol : char;
  type_ : SymbolType;
  precedence : Z;
  semantic_value : str;
  position : Z;
  metadata : DictRef
}.

#[local] Unset Elimination Schemes.
Inductive KSpkASTNode :=
| Node (token : KSpkToken) (children : list KSpkASTNode).
#[local] Set Elimination Schemes.

Definition token (n : KSpkASTNode) : KSpkToken :=
  match n with Node t _ => t end.

Definition children (n : KSpkASTNode) : list KSpkASTNode :=
  match n with Node _ cs => cs end.

Definition is_leaf (n : KSpkASTNode) : bool :=
  match children n with [] => true | _ => false end.

(** [ParseError(message, position=-1, symbol="")]. *)
Record ParseError := mkParseError {
  err_message : str;
  err_position : Z;
  err_symbol : str
}.

(** [str(e)]: the text that [ParseError.__init__] hands to [Exception]. *)
Definition ParseError_str (e : ParseError) : str :=
  py "Parse Error at position " ++ str_of_Z (err_position e) ++ py ": " ++
  err_message e ++ py " (symbol: '" ++ err_symbol e ++ py "')".

Inductive Exc (A : Type) :=
| Ok (a : A)
| Raise (e : ParseError).
Arguments Ok {A} a.
Arguments Raise {A} e.


(** The keys of [precedence_rules]. *)
Inductive RuleKey :=
| meta | routing | temporal | spatial | logical | emotional | core | modifier.

(** ** The parser

    [KSpkPrecedenceParser(rosetta_table)]: the symbol table maps a symbol to
    its entry, an object of the store [heap]. *)

Section Parser.

Variable isspace : char -> bool.
Variable lower : str -> str.
Variable rosetta : gmap char loc.
Variable heap : Heap.

Definition precedence_rules (k : RuleKey) : Z :=
  match k with
  | meta => 0
  | routing => 1
  | temporal => 2
  | spatial => 3
  | logical => 4
  | emotional => 5
  | core => 6
  | modifier => 7
  end.

Definition OPEN : char := 10216%N.   (* U+27E8 *)
Definition CLOSE : char := 10217%N.  (* U+27E9 *)

(** [self.delimiters = {OPEN: 'open', CLOSE: 'close'}]. *)
Definition delimiters (c : char) : option str :=
  if (c =? OPEN)%N then Some (py "open")
  else if (c =? CLOSE)%N then Some (py "close")
  else None.

(** [self.operators]: U+2295, U+2297, U+2299, U+2227, U+2228, U+2192. *)
Definition operators : gset char :=
  {[ 8853%N; 8855%N; 8857%N; 8743%N; 8744%N; 8594%N ]}.

Definition _classify_symbol (symbol_data : Dict) : SymbolType :=
  let category := lower (default [] (d_category symbol_data)) in
  if contains (py "temporal") category || contains (py "time") category
  then TEMPORAL
  else if contains (py "modifier") category ||
          contains (py "dimensional") category
  then MODIFIER
  else if contains (py "operator") category ||
          contains (py "logical") category
  then OPERATOR
  else if contains (py "routing") category || contains (py "agent") category
  then ROUTING
  else CORE.

Definition type_to_category (t : SymbolType) : RuleKey :=
  match t with
  | DELIMITER => meta
  | ROUTING => routing
  | TEMPORAL => temporal
  | OPERATOR => logical
  | CORE => core
  | MODIFIER => modifier
  end.

Definition _get_precedence (symbol_data : Dict) (symbol_type : SymbolType) : Z :=
  match d_precedence symbol_data with
  | Some p => p
  | None => precedence_rules (type_to_category symbol_type)
  end.

(** [_create_token]: [None] stands for the [KeyError] of an unknown symbol. *)
Definition _create_token (c : char) (pos : Z) : option KSpkToken :=
  match delimiters c with
  | Some side =>
      Some (mkToken c DELIMITER (precedence_rules meta)
                    (py "delimiter_" ++ side) pos (Fresh empty_dict))
  | None =>
      if bool_decide (c ∈ operators) then
        Some (mkToken c OPERATOR (precedence_rules logical)
                      (py "operator_" ++ [c]) pos (Fresh empty_dict))
      else
        match rosetta !! c with
        | Some l =>
            let symbol_data := heap l in
            let symbol_type := _classify_symbol symbol_data in
            let prec := _get_precedence symbol_data symbol_type in
            Some (mkToken c symbol_type prec
                          (default [c] (d_meaning symbol_data)) pos (Entry l))
        | None => None
        end
  end.

(** The placeholder that [tokenize] builds in its [except KeyError] branch. *)
Definition error_token (c : char) (pos : Z) : KSpkToken :=
  mkToken c CORE 10 (py "UNKNOWN_SYMBOL:" ++ [c]) pos
          (Fresh (mkDict None None None (Some (PBool true))
                         (Some (py "unknown_symbol")))).

(** The body of the [for char in k_spk_sequence] loop, from [position]. *)
Fixpoint tokenize_from (pos : Z) (s : str) : list KSpkToken :=
  match s with
  | [] => []
  | c :: s' =>
      if isspace c then tokenize_from (pos + 1) s'
      else
        match _create_token c pos with
        | Some tok => tok :: tokenize_from (pos + 1) s'
        | None => error_token c pos :: tokenize_from (pos + 1) s'
        end
  end.

Fixpoint lstrip (s : str) : str :=
  match s with
  | [] => []
  | c :: s' => if isspace c then lstrip s' else s
  end.

(** [s.strip()] *)
Definition strip (s : str) : str := rev (lstrip (rev (lstrip s))).

Definition tokenize (k_spk_sequence : str) : list KSpkToken :=
  match strip k_spk_sequence with
  | [] => []
  | _ => tokenize_from 0 k_spk_sequence
  end.

(** *** The expression-tree builder *)

Definition stacks : Type := list KSpkToken * list KSpkASTNode.

(** [_pop_operator_to_output(operator_stack, output_stack)] *)
Definition _pop_operator_to_output (st : stacks) : stacks :=
  let '(operator_stack, output_stack) := st in
  match operator_stack with
  | [] => st
  | operator_token :: operator_stack' =>
      if SymbolType_eqb (type_ operator_token) OPERATOR then
        match output_stack with
        | right_child :: left_child :: output_stack' =>
            (operator_stack',
             Node operator_token [left_child; right_child] :: output_stack')
        | [child] =>
            (operator_stack', [Node operator_token [child]])
        | [] =>
            (operator_stack', [Node operator_token []])
        end
      else
        (operator_stack', Node operator_token [] :: output_stack)
  end.

(** [while operator_stack and cond(operator_stack[-1]): pop]. Every turn of
    the loop removes one token, so the height of the operator stack bounds
    the number of turns. *)
Fixpoint while_pop (fuel : nat) (cond : KSpkToken -> bool) (st : stacks)
  : stacks :=
  match fuel with
  | O => st
  | S fuel' =>
      match fst st with
      | top :: _ =>
          if cond top then while_pop fuel' cond (_pop_operator_to_output st)
          else st
      | [] => st
      end
  end.

Definition pop_while (cond : KSpkToken -> bool) (st : stacks) : stacks :=
  while_pop (length (fst st)) cond st.

Definition not_open (t : KSpkToken) : bool := negb (symbol t =? OPEN)%N.

(** One turn of [for token in tokens]. *)
Definition process_token (st : stacks) (tok : KSpkToken) : Exc stacks :=
  let '(operator_stack, output_stack) := st in
  if SymbolType_eqb (type_ tok) DELIMITER then
    if (symbol tok =? OPEN)%N then
      Ok (tok :: operator_stack, output_stack)
    else if (symbol tok =? CLOSE)%N then
      match pop_while not_open st with
      | ([], _) =>
          Raise (mkParseError (py "Mismatched closing delimiter")
                              (position tok) [symbol tok])
      | (_ :: operator_stack', output_stack') =>
          Ok (operator_stack', output_stack')
      end
    else Ok st
  else if SymbolType_eqb (type_ tok) OPERATOR then
    let '(operator_stack', output_stack') :=
      pop_while (fun top => not_open top &&
                            (precedence top <=? precedence tok)%Z) st in
    Ok (tok :: operator_stack', output_stack')
  else
    Ok (operator_stack, Node tok [] :: output_stack).

Fixpoint process_tokens (st : stacks) (tokens : list KSpkToken) : Exc stacks :=
  match tokens with
  | [] => Ok st
  | tok :: tokens' =>
      match process_token st tok with
      | Ok st' => process_tokens st' tokens'
      | Raise e => Raise e
      end
  end.

(** [while operator_stack: if top is OPEN: raise; pop]. *)
Fixpoint pop_remaining (fuel : nat) (st : stacks) : Exc stacks :=
  match fuel with
  | O => Ok st
  | S fuel' =>
      match fst st with
      | [] => Ok st
      | top :: _ =>
          if (symbol top =? OPEN)%N then
            Raise (mkParseError (py "Mismatched opening delimiter") (-1) [])
          else pop_remaining fuel' (_pop_operator_to_output st)
      end
  end.

Definition _build_expression_tree (tokens : list KSpkToken)
  : Exc KSpkASTNode :=
  match process_tokens ([], []) tokens with
  | Raise e => Raise e
  | Ok st =>
      match pop_remaining (length (fst st)) st with
      | Raise e => Raise e
      | Ok (_, output_stack) =>
          match output_stack with
          | [root] => Ok root
          | _ =>
              Raise (mkParseError
                       (py "Invalid expression structure: " ++
                        str_of_Z (Z.of_nat (length output_stack)) ++
                        py " root nodes") (-1) [])
          end
      end
  end.

Definition parse_to_ast (tokens : list KSpkToken) : Exc KSpkASTNode :=
  match tokens with
  | [] => Raise (mkParseError (py "Cannot parse empty token list") (-1) [])
  | [tok] => Ok (Node tok [])
  | _ =>
      match _build_expression_tree tokens with
      | Ok root => Ok root
      | Raise e =>
          Raise (mkParseError (py "Failed to build AST: " ++ ParseError_str e)
                              (-1) [])
      end
  end.

Definition parse_k_spk_expression (expression : str) : Exc KSpkASTNode :=
  parse_to_ast (tokenize expression).

End Parser.

(** [metadata.get('error', False)] as a truth value, the store being read
    when the tree is validated. *)
Definition flagged (heap : Heap) (tok : KSpkToken) : bool :=
  truthy (default (PBool false) (d_error (deref heap (metadata tok)))).

Definition issue (c : char) : str := py "Error token in AST: " ++ [c].

Fixpoint validate_ast (heap : Heap) (root : KSpkASTNode) : list str :=
  match root with
  | Node tok cs =>
      (if flagged heap tok then [issue (symbol tok)] else []) ++
      flat_map (validate_ast heap) cs
  end.

(** ** Fixtures *)

Definition entry (meaning category : string) : Dict :=
  mkDict (Some (py meaning)) (Some (py category)) None None None.

Definition OPLUS : char := 8853%N.      (* U+2295 *)
Definition OTIMES : char := 8855%N.     (* U+2297 *)
Definition HOURGLASS : char := 10710%N. (* U+29D6 *)
Definition DIAMOND : char := 9830%N.    (* U+2666 *)
Definition HEXAGON : char := 11042%N.   (* U+2B22 *)
Definition ARROW : char := 8594%N.      (* U+2192 *)
Definition LETTER_X : char := 88%N.

(** [TEST_ROSETTA] of [tests/council_exchanges.py]: the seven entries are the
    objects 0 to 6 of the store. *)
Definition TEST_ROSETTA : gmap char loc :=
  list_to_map [(OPLUS, 0); (HOURGLASS, 1); (DIAMOND, 2); (HEXAGON, 3);
               (ARROW, 4); (OPEN, 5); (CLOSE, 6)].

Definition TEST_HEAP : Heap := fun l =>
  match l with
  | 0 => entry "logical_operation" "operator"
  | 1 => entry "temporal_marker" "temporal"
  | 2 => entry "emotional_context" "modifier"
  | 3 => entry "spatial_dimension" "modifier"
  | 4 => entry "agent_handoff" "routing"
  | 5 => entry "group_open" "delimiter"
  | 6 => entry "group_close" "delimiter"
  | _ => empty_dict
  end.

Definition test_tokenize : str -> list KSpkToken :=
  tokenize py_isspace ascii_lower TEST_ROSETTA TEST_HEAP.

Definition test_parse : str -> Exc KSpkASTNode :=
  parse_k_spk_expression py_isspace ascii_lower TEST_ROSETTA TEST_HEAP.

(** The same table with the entry of U+2295 marked by a true ['error']. *)
Definition MARKED_HEAP : Heap := fun l =>
  match l with
  | 0 => mkDict (Some (py "logical_operation")) (Some (py "operator")) None
                (Some (PBool true)) None
  | _ => TEST_HEAP l
  end.

(** A symbol of the table that is typed as routing: U+21D2, outside the
    operator set. *)
Definition DOUBLE_ARROW : char := 8658%N.

Definition ROUTED_ROSETTA : gmap char loc := <[DOUBLE_ARROW := 7]> TEST_ROSETTA.

Definition ROUTED_HEAP : Heap := fun l =>
  match l with
  | 7 => entry "agent_route" "routing"
  | _ => TEST_HEAP l
  end.

Definition shape (tok : KSpkToken) : char * SymbolType * Z :=
  (symbol tok, type_ tok, precedence tok).

(** A token with nothing but a symbol, a type and a precedence. *)
Definition plain (c : char) (t : SymbolType) (p : Z) : KSpkToken :=
  mkToken c t p [] 0 (Fresh empty_dict).

(** ** Notions of the specification *)

(** The errors of the builder, as [_build_expression_tree] raises them. *)
Definition mismatched_closing (tok : KSpkToken) : ParseError :=
  mkParseError (py "Mismatched closing delimiter") (position tok) [symbol tok].

Definition mismatched_opening : ParseError :=
  mkParseError (py "Mismatched opening delimiter") (-1) [].

Definition malformed (n : nat) : ParseError :=
  mkParseError (py "Invalid expression structure: " ++
                str_of_Z (Z.of_nat n) ++ py " root nodes") (-1) [].

Definition empty_input : ParseError :=
  mkParseError (py "Cannot parse empty token list") (-1) [].

(** What [parse_to_ast] raises in place of a failure [e] of the builder. *)
Definition reraised (e : ParseError) : ParseError :=
  mkParseError (py "Failed to build AST: " ++ ParseError_str e) (-1) [].

Definition MismatchedDelimiter (e : ParseError) : Prop :=
  err_message e = py "Mismatched closing delimiter" \/
  err_message e = py "Mismatched opening delimiter".

Definition is_open (tok : KSpkToken) : bool :=
  SymbolType_eqb (type_ tok) DELIMITER && (symbol tok =? OPEN)%N.

Definition is_close (tok : KSpkToken) : bool :=
  SymbolType_eqb (type_ tok) DELIMITER && (symbol tok =? CLOSE)%N.

(** Grouping read off the token list alone: the first close delimiter that
    has no open one before it, or else the number of open delimiters that
    are never closed. *)
Fixpoint delimiter_scan (depth : nat) (tokens : list KSpkToken)
  : KSpkToken + nat :=
  match tokens with
  | [] => inr depth
  | tok :: tokens' =>
      if is_open tok then delimiter_scan (S depth) tokens'
      else if is_close tok then
        match depth with
        | O => inl tok
        | S depth' => delimiter_scan depth' tokens'
        end
      else delimiter_scan depth tokens'
  end.

(** Token lists as the tokenizer makes them: the open delimiter is never an
    operator token. *)
Definition delimiters_typed (tokens : list KSpkToken) : Prop :=
  Forall (fun tok => type_ tok = OPERATOR -> symbol tok <> OPEN) tokens.

(** Operand tokens: those the builder wraps as leaves. *)
Definition is_operand (tok : KSpkToken) : bool :=
  negb (SymbolType_eqb (type_ tok) DELIMITER) &&
  negb (SymbolType_eqb (type_ tok) OPERATOR).

(** All nodes of a tree, a node before its children. *)
Fixpoint subnodes (n : KSpkASTNode) : list KSpkASTNode :=
  match n with
  | Node _ cs => n :: flat_map subnodes cs
  end.

(** The operand tokens of a tree, read from left to right. *)
Fixpoint operand_leaves (n : KSpkASTNode) : list KSpkToken :=
  match n with
  | Node tok cs =>
      (if is_operand tok then [tok] else []) ++ flat_map operand_leaves cs
  end.

(** The operand tokens of an operand stack, bottom first. *)
Definition stack_operands (output_stack : list KSpkASTNode) : list KSpkToken :=
  flat_map operand_leaves (rev output_stack).

(** The shape of one node: no child, or an operator token over one or two. *)
Definition node_shaped (n : KSpkASTNode) : Prop :=
  children n = [] \/
  (type_ (token n) = OPERATOR /\
   (length (children n) = 1 \/ length (children n) = 2)).

Fixpoint well_shaped (n : KSpkASTNode) : bool :=
  match n with
  | Node tok cs =>
      match cs with
      | [] => true
      | [_] | [_; _] => SymbolType_eqb (type_ tok) OPERATOR
      | _ => false
      end && forallb well_shaped cs
  end.

(** The node that a popped operator token becomes. *)
Definition attach (operator_token : KSpkToken)
           (output_stack : list KSpkASTNode) : list KSpkASTNode :=
  snd (_pop_operator_to_output ([operator_token], output_stack)).

Definition opens (operator_stack : list KSpkToken) : nat :=
  length (List.filter (fun tok => (symbol tok =? OPEN)%N) operator_stack).

(** What the two stacks keep true all along: no operand token waits on the
    operator stack, and every tree of the operand stack is well shaped. *)
Definition stacks_ok (st : stacks) : Prop :=
  Forall (fun tok => is_operand tok = false) (fst st) /\
  Forall (fun n => well_shaped n = true) (snd st).

(** Every token that waits on the operator stack is an open delimiter or an
    operator token, so the builder only ever reduces operator tokens. *)
Definition operator_stack_typed (st : stacks) : Prop :=
  Forall (fun tok => symbol tok = OPEN \/ type_ tok = OPERATOR) (fst st).

(** The token that the loop emits for a character that is not whitespace. *)
Definition emitted (lower : str -> str) (rosetta : gmap char loc)
           (heap : Heap) (c : char) (pos : Z) : KSpkToken :=
  match _create_token lower rosetta heap c pos with
  | Some tok => tok
  | None => error_token c pos
  end.

(** ** The other functions of the parser and of the demo *)

(** [SymbolType.value] *)
Definition type_value (t : SymbolType) : str :=
  match t with
  | CORE => py "core"
  | MODIFIER => py "modifier"
  | OPERATOR => py "operator"
  | DELIMITER => py "delimiter"
  | ROUTING => py "routing"
  | TEMPORAL => py "temporal"
  end.

(** [KSpkToken.__repr__] *)
Definition KSpkToken_repr (tok : KSpkToken) : str :=
  py "Token(" ++ [symbol tok] ++ py ":" ++ type_value (type_ tok) ++
  py ":p" ++ str_of_Z (precedence tok) ++ py ")".

(** [KSpkASTNode.depth] *)
Fixpoint depth (n : KSpkASTNode) : nat :=
  match n with
  | Node _ cs =>
      match cs with
      | [] => 0
      | _ => 1 + list_max (List.map depth cs)
      end
  end.

(** [debug_ast(root, indent)]: ["  " * indent] is empty for a negative
    [indent]. *)
Fixpoint debug_ast (root : KSpkASTNode) (indent : Z) : str :=
  match root with
  | Node tok cs =>
      (List.concat (repeat (py "  ") (Z.to_nat indent)) ++
       KSpkToken_repr tok ++ [10%N]) ++
      flat_map (fun child => debug_ast child (indent + 1)) cs
  end.

(** [flatten_ast_tokens] of [k_spk_demo.py] *)
Fixpoint flatten_ast_tokens (node : KSpkASTNode) : list KSpkToken :=
  match node with
  | Node tok cs => tok :: flat_map flatten_ast_tokens cs
  end.

(** ** Notions for the further properties *)

(** A token moved by [k] characters. *)
Definition shift_position (k : Z) (tok : KSpkToken) : KSpkToken :=
  mkToken (symbol tok) (type_ tok) (precedence tok) (semantic_value tok)
          (position tok + k) (metadata tok).

(** A token with its position forgotten. *)
Definition erase_position (tok : KSpkToken) : KSpkToken :=
  mkToken (symbol tok) (type_ tok) (precedence tok) (semantic_value tok)
          0 (metadata tok).

(** A tree with every token relabelled. *)
Fixpoint map_node (f : KSpkToken -> KSpkToken) (n : KSpkASTNode)
  : KSpkASTNode :=
  match n with
  | Node tok cs => Node (f tok) (List.map (map_node f) cs)
  end.

Definition not_delimiter (tok : KSpkToken) : bool :=
  negb (SymbolType_eqb (type_ tok) DELIMITER).

Definition is_operator (tok : KSpkToken) : bool :=
  SymbolType_eqb (type_ tok) OPERATOR.

(** The rendering of one node at a given depth. *)
Definition debug_line (indent : Z) (tok : KSpkToken) : str :=
  List.concat (repeat (py "  ") (Z.to_nat indent)) ++
  KSpkToken_repr tok ++ [10%N].

(** The nodes of a tree with their depth below [indent], a node before its
    children. *)
Fixpoint nodes_at (n : KSpkASTNode) (indent : Z) : list (Z * KSpkToken) :=
  match n with
  | Node tok cs =>
      (indent, tok) :: flat_map (fun child => nodes_at child (indent + 1)) cs
  end.

(** The tokens of the operator stack that wait to be reduced. *)
Definition waiting (operator_stack : list KSpkToken) : nat :=
  length (List.filter not_open operator_stack).

(** A tree in which no node has more than one child. *)
Fixpoint chain (n : KSpkASTNode) : bool :=
  match n with
  | Node _ cs => (length cs <=? 1) && forallb chain cs
  end.

(** Operators alone keep one chain at most on the operand stack. *)
Definition chain_stack (out : list KSpkASTNode) : Prop :=
  out = [] \/ exists r, out = [r] /\ chain r = true.

(** Operator tokens that are not the open delimiter. *)
Definition plain_operator (tok : KSpkToken) : Prop :=
  type_ tok = OPERATOR /\ symbol tok <> OPEN.

(** The tokens of an operand stack, tree by tree. *)
Definition stack_tokens (output_stack : list KSpkASTNode) : list KSpkToken :=
  flat_map flatten_ast_tokens output_stack.

(** The operator stack of a builder that was given tokens typed as the
    tokenizer types them: open delimiters and operators. *)
Definition operator_stack_sorted (operator_stack : list KSpkToken) : Prop :=
  Forall (fun tok => is_open tok = true \/
                     (type_ tok = OPERATOR /\ symbol tok <> OPEN))
         operator_stack.

(** The number of operator tokens in a list. *)
Definition operator_count (tokens : list KSpkToken) : nat :=
  length (List.filter is_operator tokens).

(** A symbol that [_create_token] does not know. *)
Definition is_unknown (lower : str -> str) (rosetta : gmap char loc)
           (heap : Heap) (c : char) : bool :=
  match _create_token lower rosetta heap c 0 with
  | Some _ => false
  | None => true
  end.

(** A relabelling of tokens that keeps what the builder reads. *)
Definition keeps_shape (f : KSpkToken -> KSpkToken) : Prop :=
  forall tok,
    symbol (f tok) = symbol tok /\ type_ (f tok) = type_ tok /\
    precedence (f tok) = precedence tok.

(** The number of line ends of a text. *)
Definition newlines (s : str) : nat :=
  length (List.filter (N.eqb 10) s).

(** ** The last line of the builder

    Before it returns, [_build_expression_tree] formats a debug message with
    [root.depth()]. The recursion of [depth] runs under the recursion limit
    of the interpreter: on a tree that is too deep it raises
    [RecursionError], which [parse_to_ast] catches and raises again as a
    [ParseError], as it does with any exception of the builder. How deep a
    tree [depth] walks depends on the limit and on the frames in use when
    the parser is called, and the text of the error on the interpreter: the
    two are parameters, [max_depth] and [recursion_text]. *)

(** The exceptions of the body of [_build_expression_tree]. *)
Inductive BuildError :=
| BuildParseError (e : ParseError)
| RecursionError (text : str).

(** [str(e)] for an exception of the builder. *)
Definition BuildError_str (e : BuildError) : str :=
  match e with
  | BuildParseError e => ParseError_str e
  | RecursionError text => text
  end.

Inductive BuildResult :=
| Built (root : KSpkASTNode)
| Failed (e : BuildError).

(** [root.depth()] where [depth] walks trees of depth [max_depth] at most:
    the stack that the call needs grows with the depth of the tree only. *)
Definition depth_call (max_depth : nat) (root : KSpkASTNode) : option nat :=
  if depth root <=? max_depth then Some (depth root) else None.

(** [_build_expression_tree], its last two lines included. *)
Definition _build_expression_tree_bounded (max_depth : nat)
           (recursion_text : str) (tokens : list KSpkToken) : BuildResult :=
  match _build_expression_tree tokens with
  | Raise e => Failed (BuildParseError e)
  | Ok root =>
      match depth_call max_depth root with
      | Some _ => Built root
      | None => Failed (RecursionError recursion_text)
      end
  end.

(** [parse_to_ast] over that builder: [except Exception] catches both
    kinds of exception. *)
Definition parse_to_ast_bounded (max_depth : nat) (recursion_text : str)
           (tokens : list KSpkToken) : Exc KSpkASTNode :=
  match tokens with
  | [] => Raise (mkParseError (py "Cannot parse empty token list") (-1) [])
  | [tok] => Ok (Node tok [])
  | _ =>
      match _build_expression_tree_bounded max_depth recursion_text tokens with
      | Built root => Ok root
      | Failed e =>
          Raise (mkParseError (py "Failed to build AST: " ++ BuildError_str e)
                              (-1) [])
      end
  end.

(** What [parse_to_ast] raises when the debug line fails. *)
Definition recursion_failure (recursion_text : str) : ParseError :=
  mkParseError (py "Failed to build AST: " ++ recursion_text) (-1) [].

(** The characters of a string, each with its offset. *)
Definition indexed (s : str) : list (Z * char) :=
  combine (List.map Z.of_nat (seq 0 (length s))) s.

(** Those of them that are not whitespace. *)
Definition visible (isspace : char -> bool) (s : str) : list (Z * char) :=
  List.filter (fun p => negb (isspace (snd p))) (indexed s).

(** ** The loops of the builder *)

Lemma SymbolType_eqb_eq (a b : SymbolType) :
  SymbolType_eqb a b = true <-> a = b.
Proof. destruct a, b; simpl; split; congruence. Qed.

Lemma pop_cons (tok : KSpkToken) operator_stack output_stack :
  _pop_operator_to_output (tok :: operator_stack, output_stack) =
  (operator_stack, attach tok output_stack).
Proof.
  unfold attach, _pop_operator_to_output.
  destruct (SymbolType_eqb (type_ tok) OPERATOR);
    [destruct output_stack as [|r [|l out]]|]; reflexivity.
Qed.

(** The loop never stops for lack of fuel. *)
Lemma while_pop_enough cond fuel :
  forall operator_stack output_stack,
    length operator_stack <= fuel ->
    while_pop fuel cond (operator_stack, output_stack) =
    while_pop (length operator_stack) cond (operator_stack, output_stack).
Proof.
  induction fuel as [|fuel IH]; intros ops out Hlen.
  - destruct ops; [reflexivity | simpl in Hlen; lia].
  - destruct ops as [|t ops]; [reflexivity|].
    cbn [while_pop fst length]. destruct (cond t); [|reflexivity].
    rewrite pop_cons. apply IH. simpl in Hlen. lia.
Qed.

Lemma pop_while_nil cond output_stack :
  pop_while cond ([], output_stack) = ([], output_stack).
Proof. reflexivity. Qed.

Lemma pop_while_cons cond tok operator_stack output_stack :
  pop_while cond (tok :: operator_stack, output_stack) =
  if cond tok then pop_while cond (operator_stack, attach tok output_stack)
  else (tok :: operator_stack, output_stack).
Proof.
  unfold pop_while. cbn [while_pop fst length].
  destruct (cond tok); [|reflexivity].
  now rewrite pop_cons.
Qed.

(** What a popping loop does, told without fuel: it pops the longest run of
    tokens that satisfy the condition and reduces them in turn. *)
Lemma pop_while_run cond :
  forall operator_stack output_stack,
  exists popped kept,
    operator_stack = popped ++ kept /\
    Forall (fun tok => cond tok = true) popped /\
    (forall tok, head kept = Some tok -> cond tok = false) /\
    pop_while cond (operator_stack, output_stack) =
    (kept, fold_left (fun out tok => attach tok out) popped output_stack).
Proof.
  induction operator_stack as [|t ops IH]; intros out.
  - exists [], []. repeat split; [constructor | discriminate].
  - rewrite pop_while_cons. destruct (cond t) eqn:Ht.
    + destruct (IH (attach t out)) as (popped & kept & -> & Hall & Hk & Hrun).
      exists (t :: popped), kept. repeat split; auto.
    + exists [], (t :: ops). repeat split; [constructor|].
      intros tok [= <-]. exact Ht.
Qed.

Lemma pop_remaining_enough fuel :
  forall operator_stack output_stack,
    length operator_stack <= fuel ->
    pop_remaining fuel (operator_stack, output_stack) =
    pop_remaining (length operator_stack) (operator_stack, output_stack).
Proof.
  induction fuel as [|fuel IH]; intros ops out Hlen.
  - destruct ops; [reflexivity | simpl in Hlen; lia].
  - destruct ops as [|t ops]; [reflexivity|].
    cbn [pop_remaining fst length].
    destruct (symbol t =? OPEN)%N; [reflexivity|].
    rewrite pop_cons. apply IH. simpl in Hlen. lia.
Qed.

Lemma pop_remaining_cons tok operator_stack output_stack :
  pop_remaining (length (tok :: operator_stack))
                (tok :: operator_stack, output_stack) =
  if (symbol tok =? OPEN)%N then Raise mismatched_opening
  else pop_remaining (length operator_stack)
                     (operator_stack, attach tok output_stack).
Proof.
  cbn [pop_remaining fst length].
  destruct (symbol tok =? OPEN)%N; [reflexivity|].
  now rewrite pop_cons.
Qed.

Lemma opens_cons tok operator_stack :
  opens (tok :: operator_stack) =
  if (symbol tok =? OPEN)%N then S (opens operator_stack)
  else opens operator_stack.
Proof. unfold opens. simpl. now destruct (symbol tok =? OPEN)%N. Qed.

Lemma opens_app a b : opens (a ++ b) = opens a + opens b.
Proof. unfold opens. now rewrite List.filter_app, length_app. Qed.

Lemma opens_not_open popped :
  Forall (fun tok => not_open tok = true) popped -> opens popped = 0.
Proof.
  induction 1 as [|t l Ht _ IH]; [reflexivity|].
  rewrite opens_cons. unfold not_open in Ht.
  destruct (symbol t =? OPEN)%N; [discriminate | exact IH].
Qed.

(** The final loop: it fails exactly when an open delimiter is left. *)
Lemma pop_remaining_spec :
  forall operator_stack output_stack,
    pop_remaining (length operator_stack) (operator_stack, output_stack) =
    match opens operator_stack with
    | O => Ok ([], fold_left (fun out tok => attach tok out)
                             operator_stack output_stack)
    | S _ => Raise mismatched_opening
    end.
Proof.
  induction operator_stack as [|t ops IH]; intros out; [reflexivity|].
  rewrite pop_remaining_cons, opens_cons.
  destruct (symbol t =? OPEN)%N; [reflexivity|]. apply IH.
Qed.

(** ** Grouping: the operator stack against the scan of the delimiters *)

(** One token moves the number of open delimiters on the operator stack as
    it moves the depth of the scan. *)
Lemma process_token_depth (st : stacks) (tok : KSpkToken) :
  (type_ tok = OPERATOR -> symbol tok <> OPEN) ->
  match delimiter_scan (opens (fst st)) [tok] with
  | inl t => process_token st tok = Raise (mismatched_closing t)
  | inr depth =>
      exists st', process_token st tok = Ok st' /\ opens (fst st') = depth
  end.
Proof.
  destruct st as [ops out]. intros Hwf.
  unfold delimiter_scan, is_open, is_close, process_token.
  cbn [fst].
  destruct (SymbolType_eqb (type_ tok) DELIMITER) eqn:Hd; cbn [andb].
  - destruct (symbol tok =? OPEN)%N eqn:Ho.
    + eexists. split; [reflexivity|]. cbn [fst]. now rewrite opens_cons, Ho.
    + destruct (symbol tok =? CLOSE)%N eqn:Hc.
      * destruct (pop_while_run not_open ops out)
          as (popped & kept & -> & Hall & Hk & ->).
        rewrite opens_app, (opens_not_open _ Hall). cbn [Nat.add].
        destruct kept as [|k kept]; [reflexivity|].
        specialize (Hk k eq_refl). unfold not_open in Hk.
        apply negb_false_iff in Hk. rewrite opens_cons, Hk.
        eexists. split; reflexivity.
      * eexists. split; reflexivity.
  - destruct (SymbolType_eqb (type_ tok) OPERATOR) eqn:Hop.
    + destruct (pop_while_run
                  (fun top => not_open top &&
                              (precedence top <=? precedence tok)%Z) ops out)
        as (popped & kept & -> & Hall & _ & ->).
      eexists. split; [reflexivity|]. cbn [fst].
      apply SymbolType_eqb_eq in Hop. apply Hwf in Hop.
      apply N.eqb_neq in Hop.
      rewrite opens_cons, Hop, opens_app.
      rewrite (opens_not_open popped); [reflexivity|].
      eapply Forall_impl; [exact Hall|].
      cbn. now intros t [H _]%andb_true_iff.
    + eexists. split; reflexivity.
Qed.

Lemma delimiter_scan_one depth tok tokens :
  delimiter_scan depth (tok :: tokens) =
  match delimiter_scan depth [tok] with
  | inl t => inl t
  | inr depth' => delimiter_scan depth' tokens
  end.
Proof.
  cbn [delimiter_scan].
  destruct (is_open tok); [reflexivity|].
  destruct (is_close tok); [|reflexivity].
  destruct depth; reflexivity.
Qed.

Lemma process_tokens_depth :
  forall (tokens : list KSpkToken) (st : stacks),
    delimiters_typed tokens ->
    match delimiter_scan (opens (fst st)) tokens with
    | inl t => process_tokens st tokens = Raise (mismatched_closing t)
    | inr depth =>
        exists st', process_tokens st tokens = Ok st' /\
                    opens (fst st') = depth
    end.
Proof.
  induction tokens as [|tok tokens IH]; intros st Hwf.
  - cbn. eauto.
  - inversion Hwf as [|? ? Htok Hrest]; subst.
    rewrite delimiter_scan_one. cbn [process_tokens].
    pose proof (process_token_depth st tok Htok) as Hstep.
    destruct (delimiter_scan (opens (fst st)) [tok]) as [t|depth].
    + now rewrite Hstep.
    + destruct Hstep as (st' & -> & <-). now apply IH.
Qed.

(** The builder, case by case on the scan of the delimiters. *)
Lemma build_by_scan (tokens : list KSpkToken) :
  delimiters_typed tokens ->
  match delimiter_scan 0 tokens with
  | inl t => _build_expression_tree tokens = Raise (mismatched_closing t)
  | inr (S _) => _build_expression_tree tokens = Raise mismatched_opening
  | inr O =>
      (exists root, _build_expression_tree tokens = Ok root) \/
      (exists n, n <> 1 /\ _build_expression_tree tokens = Raise (malformed n))
  end.
Proof.
  intros Hwf. unfold _build_expression_tree.
  pose proof (process_tokens_depth tokens ([], []) Hwf) as H.
  cbn [fst opens List.filter length] in H.
  destruct (delimiter_scan 0 tokens) as [t|depth].
  - now rewrite H.
  - destruct H as ([ops out] & -> & Hd). cbn [fst] in *.
    rewrite pop_remaining_spec, Hd.
    destruct depth; [|reflexivity].
    destruct (fold_left _ ops out) as [|root [|n2 rest]] eqn:Hout.
    + right. exists 0. split; [lia | reflexivity].
    + left. eauto.
    + right. exists (S (S (length rest))). split; [lia | reflexivity].
Qed.

Lemma malformed_not_mismatched n : ~ MismatchedDelimiter (malformed n).
Proof.
  intros [H|H]; apply (f_equal (hd 0%N)) in H; vm_compute in H; discriminate.
Qed.

Lemma mismatched_closing_is tok : MismatchedDelimiter (mismatched_closing tok).
Proof. now left. Qed.

Lemma mismatched_opening_is : MismatchedDelimiter mismatched_opening.
Proof. now right. Qed.

(** ** Shape of the trees *)

Lemma KSpkASTNode_ind (P : KSpkASTNode -> Prop) :
  (forall tok cs, Forall P cs -> P (Node tok cs)) ->
  forall n, P n.
Proof.
  intros step. fix rec 1. intros [tok cs]. apply step.
  induction cs as [|c cs IH]; constructor; [apply rec | exact IH].
Qed.

Lemma well_shaped_node tok cs :
  well_shaped (Node tok cs) = true ->
  node_shaped (Node tok cs) /\ Forall (fun c => well_shaped c = true) cs.
Proof.
  cbn [well_shaped]. intros [Hn Hcs]%andb_true_iff. split.
  - unfold node_shaped. cbn [children token].
    destruct cs as [|c1 [|c2 [|c3 cs]]]; [now left | | | discriminate];
      right; (split; [now apply SymbolType_eqb_eq | cbn; auto]).
  - apply Forall_forall. intros c Hc. apply list_elem_of_In in Hc.
    rewrite forallb_forall in Hcs. now apply Hcs.
Qed.


Lemma attach_well_shaped tok output_stack :
  Forall (fun n => well_shaped n = true) output_stack ->
  Forall (fun n => well_shaped n = true) (attach tok output_stack).
Proof.
  intros Hout. unfold attach, _pop_operator_to_output. cbn [snd].
  destruct (SymbolType_eqb (type_ tok) OPERATOR) eqn:Hop.
  - destruct output_stack as [|r [|l out]]; cbn [snd].
    + repeat constructor.
    + inversion Hout as [|? ? Hr _]; subst.
      repeat constructor. cbn. now rewrite Hop, Hr.
    + inversion Hout as [|? ? Hr Hout']; subst.
      inversion Hout' as [|? ? Hl Hrest]; subst.
      constructor; [|exact Hrest]. cbn. now rewrite Hop, Hl, Hr.
  - cbn [snd]. constructor; [reflexivity | exact Hout].
Qed.

Lemma stack_operands_cons n output_stack :
  stack_operands (n :: output_stack) =
  stack_operands output_stack ++ operand_leaves n.
Proof.
  unfold stack_operands. cbn [rev]. rewrite flat_map_app. cbn [flat_map].
  now rewrite app_nil_r.
Qed.

(** Reducing an operator keeps the operands of the stack in their order. *)
Lemma attach_operands tok output_stack :
  is_operand tok = false ->
  stack_operands (attach tok output_stack) = stack_operands output_stack.
Proof.
  intros Hop. unfold attach, _pop_operator_to_output. cbn [snd].
  destruct (SymbolType_eqb (type_ tok) OPERATOR);
    [destruct output_stack as [|r [|l out]]|]; cbn [snd];
    rewrite ?stack_operands_cons; cbn [operand_leaves flat_map];
    rewrite Hop, ?app_nil_r; cbn [app]; try reflexivity.
  now rewrite app_assoc.
Qed.

Lemma reduce_run_ok popped :
  forall output_stack,
    Forall (fun tok => is_operand tok = false) popped ->
    Forall (fun n => well_shaped n = true) output_stack ->
    Forall (fun n => well_shaped n = true)
           (fold_left (fun out tok => attach tok out) popped output_stack) /\
    stack_operands (fold_left (fun out tok => attach tok out)
                              popped output_stack) =
    stack_operands output_stack.
Proof.
  induction popped as [|t popped IH]; intros out Hp Hout; [now split|].
  inversion Hp as [|? ? Ht Hp']; subst. cbn [fold_left].
  destruct (IH (attach t out) Hp' (attach_well_shaped t out Hout)) as [H1 H2].
  split; [exact H1|]. now rewrite H2, attach_operands.
Qed.

Lemma pop_while_ok cond (st : stacks) :
  stacks_ok st ->
  stacks_ok (pop_while cond st) /\
  stack_operands (snd (pop_while cond st)) = stack_operands (snd st).
Proof.
  destruct st as [ops out]. intros [Hops Hout]. cbn [fst snd] in *.
  destruct (pop_while_run cond ops out) as (popped & kept & -> & _ & _ & ->).
  apply Forall_app in Hops as [Hp Hk].
  destruct (reduce_run_ok popped out Hp Hout) as [H1 H2].
  repeat split; assumption.
Qed.

Lemma process_token_ok (st st' : stacks) (tok : KSpkToken) :
  stacks_ok st ->
  process_token st tok = Ok st' ->
  stacks_ok st' /\
  stack_operands (snd st') =
  stack_operands (snd st) ++ List.filter is_operand [tok].
Proof.
  intros Hst. pose proof Hst as [Hops Hout].
  destruct st as [ops out]. cbn [fst snd] in *.
  unfold process_token. cbn [List.filter].
  destruct (SymbolType_eqb (type_ tok) DELIMITER) eqn:Hd.
  - assert (Hio : is_operand tok = false)
      by (unfold is_operand; now rewrite Hd).
    rewrite Hio, app_nil_r.
    destruct (symbol tok =? OPEN)%N.
    + intros [= <-]. repeat split; cbn [fst snd]; auto.
    + destruct (symbol tok =? CLOSE)%N.
      * destruct (pop_while_ok not_open (ops, out) Hst) as [[H1 H2] H3].
        destruct (pop_while not_open (ops, out)) as [[|k kept] out'];
          [discriminate|].
        intros [= <-]. cbn [fst snd] in *.
        inversion H1; subst. repeat split; assumption.
      * intros [= <-]. now split.
  - destruct (SymbolType_eqb (type_ tok) OPERATOR) eqn:Hop.
    + assert (Hio : is_operand tok = false)
        by (unfold is_operand; rewrite Hop; apply andb_false_r).
      rewrite Hio, app_nil_r.
      match goal with |- context [pop_while ?c _] =>
        destruct (pop_while_ok c (ops, out) Hst) as [[H1 H2] H3];
        destruct (pop_while c (ops, out)) as [kept out']
      end.
      intros [= <-]. cbn [fst snd] in *. repeat split; auto.
      cbn [fst]. now constructor.
    + assert (Hio : is_operand tok = true)
        by (unfold is_operand; now rewrite Hd, Hop).
      rewrite Hio.
      intros [= <-]. cbn [fst snd]. split; [split|]; cbn [fst snd].
      * exact Hops.
      * now constructor.
      * rewrite stack_operands_cons. cbn [operand_leaves flat_map].
        now rewrite Hio, app_nil_r.
Qed.

Lemma process_tokens_ok :
  forall (tokens : list KSpkToken) (st st' : stacks),
    stacks_ok st ->
    process_tokens st tokens = Ok st' ->
    stacks_ok st' /\
    stack_operands (snd st') =
    stack_operands (snd st) ++ List.filter is_operand tokens.
Proof.
  induction tokens as [|tok tokens IH]; intros st st' Hst.
  - cbn. intros [= <-]. now rewrite app_nil_r.
  - cbn [process_tokens].
    destruct (process_token st tok) as [st1|e] eqn:Hstep; [|discriminate].
    intros Hrun.
    destruct (process_token_ok st st1 tok Hst Hstep) as [Hst1 Hops1].
    destruct (IH st1 st' Hst1 Hrun) as [Hst' Hops'].
    split; [exact Hst'|]. rewrite Hops', Hops1, <- app_assoc.
    f_equal. change (tok :: tokens) with ([tok] ++ tokens).
    now rewrite List.filter_app.
Qed.

Lemma build_ok (tokens : list KSpkToken) (root : KSpkASTNode) :
  _build_expression_tree tokens = Ok root ->
  well_shaped root = true /\
  operand_leaves root = List.filter is_operand tokens.
Proof.
  unfold _build_expression_tree.
  destruct (process_tokens ([], []) tokens) as [[ops out]|e] eqn:Hrun;
    [|discriminate].
  assert (Hinit : stacks_ok ([], [])) by (split; constructor).
  destruct (process_tokens_ok tokens _ _ Hinit Hrun) as [[Hops Hout] Hleaves].
  cbn [fst snd] in *.
  change (stack_operands out = List.filter is_operand tokens) in Hleaves.
  rewrite pop_remaining_spec.
  destruct (opens ops); [|discriminate].
  destruct (reduce_run_ok ops out Hops Hout) as [H1 H2].
  destruct (fold_left _ ops out) as [|r [|r2 rest]]; try discriminate.
  intros [= <-]. inversion H1; subst. split; [assumption|].
  rewrite <- Hleaves, <- H2. unfold stack_operands. cbn.
  now rewrite app_nil_r.
Qed.

Lemma parse_to_ast_ok (tokens : list KSpkToken) (root : KSpkASTNode) :
  parse_to_ast tokens = Ok root ->
  well_shaped root = true /\
  operand_leaves root = List.filter is_operand tokens.
Proof.
  destruct tokens as [|t1 [|t2 tokens]]; cbn [parse_to_ast].
  - discriminate.
  - intros [= <-]. split; [reflexivity|]. cbn.
    destruct (is_operand t1); reflexivity.
  - destruct (_build_expression_tree (t1 :: t2 :: tokens)) as [r|e] eqn:Hb;
      [|discriminate].
    intros [= <-]. now apply build_ok.
Qed.

Lemma process_token_typed (st st' : stacks) (tok : KSpkToken) :
  operator_stack_typed st ->
  process_token st tok = Ok st' ->
  operator_stack_typed st'.
Proof.
  destruct st as [ops out]. unfold operator_stack_typed, process_token.
  cbn [fst]. intros Hops.
  destruct (SymbolType_eqb (type_ tok) DELIMITER).
  - destruct (symbol tok =? OPEN)%N eqn:Ho.
    + intros [= <-]. cbn [fst]. constructor; [|exact Hops].
      left. now apply N.eqb_eq.
    + destruct (symbol tok =? CLOSE)%N; [|now intros [= <-]].
      destruct (pop_while_run not_open ops out)
        as (popped & kept & -> & _ & _ & ->).
      apply Forall_app in Hops as [_ Hk].
      destruct kept as [|k kept]; [discriminate|].
      intros [= <-]. cbn [fst]. now inversion Hk.
  - destruct (SymbolType_eqb (type_ tok) OPERATOR) eqn:Hop.
    + match goal with |- context [pop_while ?c _] =>
        destruct (pop_while_run c ops out)
          as (popped & kept & -> & _ & _ & ->)
      end.
      intros [= <-]. cbn [fst]. apply Forall_app in Hops as [_ Hk].
      constructor; [|exact Hk]. right. now apply SymbolType_eqb_eq.
    + now intros [= <-].
Qed.

Lemma process_tokens_typed :
  forall (tokens : list KSpkToken) (st st' : stacks),
    operator_stack_typed st ->
    process_tokens st tokens = Ok st' ->
    operator_stack_typed st'.
Proof.
  induction tokens as [|tok tokens IH]; intros st st' Hst.
  - now intros [= <-].
  - cbn [process_tokens].
    destruct (process_token st tok) as [st1|e] eqn:Hstep; [|discriminate].
    apply IH. eapply process_token_typed; eassumption.
Qed.

(** ** The tokenizer *)

(** When the builder pops a token, the top of the operator stack is not an
    open delimiter: the token is an operator token. *)
Lemma popped_token_is_operator (tok : KSpkToken) operator_stack output_stack :
  operator_stack_typed (tok :: operator_stack, output_stack) ->
  not_open tok = true ->
  type_ tok = OPERATOR.
Proof.
  unfold operator_stack_typed, not_open. cbn [fst].
  intros Hst Hno. inversion Hst as [|? ? [Ho|Ht] _]; subst; [|exact Ht].
  rewrite Ho in Hno. discriminate.
Qed.

Lemma operators_spec (c : char) :
  c ∈ operators <->
  (c = 8853 \/ c = 8855 \/ c = 8857 \/ c = 8743 \/ c = 8744 \/ c = 8594)%N.
Proof.
  unfold operators. rewrite !elem_of_union, !elem_of_singleton. tauto.
Qed.

Lemma operators_not_delimiters (c : char) :
  c ∈ operators -> delimiters c = None.
Proof.
  intros H%operators_spec.
  destruct H as [->|[->|[->|[->|[->| ->]]]]]; reflexivity.
Qed.

Lemma delimiters_None c : delimiters c = None -> c <> OPEN /\ c <> CLOSE.
Proof.
  unfold delimiters.
  destruct (c =? OPEN)%N eqn:Ho; [discriminate|].
  destruct (c =? CLOSE)%N eqn:Hc; [discriminate|].
  intros _. split; now apply N.eqb_neq.
Qed.

Section Tokenizer.

Variable isspace : char -> bool.
Variable lower : str -> str.
Variable rosetta : gmap char loc.
Variable heap : Heap.

Local Abbreviation tokenize_from' := (tokenize_from isspace lower rosetta heap).
Local Abbreviation tokenize' := (tokenize isspace lower rosetta heap).
Local Abbreviation create' := (_create_token lower rosetta heap).
Local Abbreviation emitted' := (emitted lower rosetta heap).

Lemma tokenize_from_cons c s pos :
  isspace c = false ->
  tokenize_from' pos (c :: s) = emitted' c pos :: tokenize_from' (pos + 1) s.
Proof.
  intros Hc. cbn [tokenize_from]. rewrite Hc. unfold emitted.
  now destruct (create' c pos).
Qed.

Lemma tokenize_from_app s1 :
  forall s2 pos,
    tokenize_from' pos (s1 ++ s2) =
    tokenize_from' pos s1 ++ tokenize_from' (pos + Z.of_nat (length s1)) s2.
Proof.
  induction s1 as [|c s1 IH]; intros s2 pos.
  - cbn. now rewrite Z.add_0_r.
  - cbn [app tokenize_from length]. rewrite IH.
    replace (pos + 1 + Z.of_nat (length s1))%Z
      with (pos + Z.of_nat (S (length s1)))%Z by lia.
    destruct (isspace c); [reflexivity|].
    now destruct (create' c pos).
Qed.

Lemma tokenize_from_spaces s :
  forall pos, forallb isspace s = true -> tokenize_from' pos s = [].
Proof.
  induction s as [|c s IH]; intros pos; [reflexivity|].
  cbn. intros [Hc Hs]%andb_true_iff. rewrite Hc. now apply IH.
Qed.

Lemma lstrip_nil s : lstrip isspace s = [] <-> forallb isspace s = true.
Proof.
  induction s as [|c s IH]; [easy|].
  cbn. destruct (isspace c); [exact IH | easy].
Qed.

Lemma lstrip_spaces_only s :
  forallb isspace (lstrip isspace s) = true -> lstrip isspace s = [].
Proof.
  induction s as [|c s IH]; [easy|].
  cbn. destruct (isspace c) eqn:Hc; [exact IH|].
  cbn. now rewrite Hc.
Qed.

Lemma forallb_rev (f : char -> bool) s : forallb f (rev s) = forallb f s.
Proof.
  induction s as [|c s IH]; [reflexivity|].
  cbn. rewrite forallb_app, IH. cbn. rewrite andb_true_r. apply andb_comm.
Qed.

Lemma strip_nil s : strip isspace s = [] <-> forallb isspace s = true.
Proof.
  unfold strip. split.
  - intros H. apply (f_equal (@rev char)) in H. rewrite rev_involutive in H.
    cbn in H. apply lstrip_nil in H. rewrite forallb_rev in H.
    apply lstrip_spaces_only in H. now apply lstrip_nil.
  - intros H. apply lstrip_nil in H. now rewrite H.
Qed.

(** The early return of [tokenize] agrees with its loop. *)
Lemma tokenize_loop s : tokenize' s = tokenize_from' 0 s.
Proof.
  unfold tokenize. destruct (strip isspace s) eqn:Hs; [|reflexivity].
  apply strip_nil in Hs. now rewrite tokenize_from_spaces.
Qed.

Lemma create_operator (c : char) pos :
  c ∈ operators ->
  create' c pos =
  Some (mkToken c OPERATOR 4 (py "operator_" ++ [c]) pos (Fresh empty_dict)).
Proof.
  intros Hc. unfold _create_token.
  rewrite (operators_not_delimiters c Hc).
  now rewrite (bool_decide_eq_true_2 _ Hc).
Qed.

Lemma create_unknown (c : char) pos :
  delimiters c = None -> c ∉ operators -> rosetta !! c = None ->
  create' c pos = None.
Proof.
  intros Hd Ho Hr. unfold _create_token.
  now rewrite Hd, (bool_decide_eq_false_2 _ Ho), Hr.
Qed.

Lemma create_entry (c : char) (l : loc) pos :
  delimiters c = None -> c ∉ operators -> rosetta !! c = Some l ->
  exists tok, create' c pos = Some tok /\
              symbol tok = c /\ position tok = pos /\ metadata tok = Entry l.
Proof.
  intros Hd Ho Hr. unfold _create_token.
  rewrite Hd, (bool_decide_eq_false_2 _ Ho), Hr.
  eexists. split; [reflexivity|]. now cbn.
Qed.

Lemma emitted_symbol c pos : symbol (emitted' c pos) = c.
Proof.
  unfold emitted, _create_token.
  destruct (delimiters c); [reflexivity|].
  destruct (bool_decide (c ∈ operators)); [reflexivity|].
  destruct (rosetta !! c); reflexivity.
Qed.

Lemma emitted_typed c pos :
  type_ (emitted' c pos) = OPERATOR -> symbol (emitted' c pos) <> OPEN.
Proof.
  rewrite emitted_symbol. unfold emitted, _create_token.
  destruct (delimiters c) eqn:Hd; [discriminate|].
  intros _. now apply delimiters_None in Hd.
Qed.

(** The tokenizer never types the open delimiter as an operator. *)
Lemma tokenize_from_typed s :
  forall pos, delimiters_typed (tokenize_from' pos s).
Proof.
  induction s as [|c s IH]; intros pos; [constructor|].
  destruct (isspace c) eqn:Hc.
  - cbn [tokenize_from]. rewrite Hc. apply IH.
  - rewrite tokenize_from_cons by exact Hc.
    constructor; [apply emitted_typed | apply IH].
Qed.

Lemma tokenize_typed s : delimiters_typed (tokenize' s).
Proof. rewrite tokenize_loop. apply tokenize_from_typed. Qed.

End Tokenizer.

(** ** The validator *)

(** One issue for each flagged node, a node before its children. *)
Lemma validate_ast_spec (heap : Heap) :
  forall root,
    validate_ast heap root =
    List.map (fun n => issue (symbol (token n)))
             (List.filter (fun n => flagged heap (token n)) (subnodes root)).
Proof.
  induction root as [tok cs IH] using KSpkASTNode_ind.
  cbn [validate_ast subnodes List.filter token].
  assert (Hcs : flat_map (validate_ast heap) cs =
                List.map (fun n => issue (symbol (token n)))
                  (List.filter (fun n => flagged heap (token n))
                               (flat_map subnodes cs))).
  { induction IH as [|c cs Hc _ IHcs]; [reflexivity|].
    cbn [flat_map]. now rewrite List.filter_app, List.map_app, Hc, IHcs. }
  rewrite Hcs. now destruct (flagged heap tok).
Qed.

Lemma validate_reports (heap : Heap) (root n : KSpkASTNode) :
  In n (subnodes root) ->
  flagged heap (token n) = true ->
  In (issue (symbol (token n))) (validate_ast heap root).
Proof.
  intros Hn Hf. rewrite validate_ast_spec.
  apply (in_map (fun n => issue (symbol (token n)))).
  apply List.filter_In. now split.
Qed.

(** ** The builder on small inputs *)

Lemma process_token_operator (st : stacks) (tok : KSpkToken) :
  type_ tok = OPERATOR ->
  process_token st tok =
  Ok (tok :: fst (pop_while (fun top => not_open top &&
                              (precedence top <=? precedence tok)%Z) st),
      snd (pop_while (fun top => not_open top &&
                              (precedence top <=? precedence tok)%Z) st)).
Proof.
  intros Ht. destruct st as [ops out]. unfold process_token. rewrite Ht.
  cbn [SymbolType_eqb].
  now destruct (pop_while _ (ops, out)).
Qed.

Lemma process_token_operand (st : stacks) (tok : KSpkToken) :
  is_operand tok = true ->
  process_token st tok = Ok (fst st, Node tok [] :: snd st).
Proof.
  destruct st as [ops out]. unfold is_operand, process_token.
  intros [Hd Ho]%andb_true_iff.
  apply negb_true_iff in Hd, Ho. now rewrite Hd, Ho.
Qed.

Lemma attach_operator_nil tok :
  type_ tok = OPERATOR -> attach tok [] = [Node tok []].
Proof. intros H. unfold attach, _pop_operator_to_output. now rewrite H. Qed.

Lemma attach_operator_one tok child :
  type_ tok = OPERATOR -> attach tok [child] = [Node tok [child]].
Proof. intros H. unfold attach, _pop_operator_to_output. now rewrite H. Qed.

Lemma attach_operator_two tok right_child left_child rest :
  type_ tok = OPERATOR ->
  attach tok (right_child :: left_child :: rest) =
  Node tok [left_child; right_child] :: rest.
Proof. intros H. unfold attach, _pop_operator_to_output. now rewrite H. Qed.

(** Operator, operand, operator: one tree, whichever operator binds first. *)
Lemma build_operator_operand_operator (ta tc tb : KSpkToken) :
  type_ ta = OPERATOR -> type_ tb = OPERATOR -> is_operand tc = true ->
  symbol ta <> OPEN -> symbol tb <> OPEN ->
  _build_expression_tree [ta; tc; tb] =
  Ok (if (precedence ta <=? precedence tb)%Z
      then Node tb [Node ta [Node tc []]]
      else Node ta [Node tb [Node tc []]]).
Proof.
  intros Ha Hb Hc Hoa Hob.
  apply N.eqb_neq in Hoa, Hob.
  unfold _build_expression_tree. cbn [process_tokens].
  rewrite (process_token_operator _ ta Ha), pop_while_nil. cbn [fst snd].
  rewrite (process_token_operand _ tc Hc). cbn [fst snd].
  assert (Hna : not_open ta = true) by (unfold not_open; now rewrite Hoa).
  rewrite (process_token_operator _ tb Hb), pop_while_cons, Hna.
  cbn [andb].
  destruct (precedence ta <=? precedence tb)%Z.
  - rewrite pop_while_nil. cbn [fst snd].
    rewrite pop_remaining_spec, opens_cons, Hob. cbn [opens List.filter length].
    cbn [fold_left].
    now rewrite (attach_operator_one ta _ Ha), (attach_operator_one tb _ Hb).
  - cbn [fst snd].
    rewrite pop_remaining_spec, !opens_cons, Hoa, Hob.
    cbn [opens List.filter length fold_left].
    now rewrite (attach_operator_one tb _ Hb), (attach_operator_one ta _ Ha).
Qed.

(** ** Properties of the specification *)

Section Claims.

Variable isspace : char -> bool.
Variable lower : str -> str.
Variable rosetta : gmap char loc.
Variable heap : Heap.

Local Abbreviation tokenize_from' := (tokenize_from isspace lower rosetta heap).
Local Abbreviation tokenize' := (tokenize isspace lower rosetta heap).
Local Abbreviation emitted' := (emitted lower rosetta heap).
Local Abbreviation parse' :=
  (parse_k_spk_expression isspace lower rosetta heap).

(** C3. An unknown symbol, that is a character that is neither whitespace
    nor a delimiter nor in the operator set nor in the symbol table, never
    aborts tokenization: wherever it stands, the tokens before it and after
    it are produced as usual and the symbol itself yields a [CORE] token
    with precedence 10, beyond every rule of the precedence table, whose
    error flag is set. In particular a known operator, an unknown symbol and
    another known operator parse to a tree, and [validate_ast] returns
    exactly one issue, the one of the unknown symbol. A known operator is a
    symbol that the tokenizer types as operator, from the operator set or
    from the table, the entry of the table carrying no error mark of its
    own. *)
Theorem unknown_symbol_never_aborts (c : char) :
  isspace c = false ->
  delimiters c = None -> c ∉ operators -> rosetta !! c = None ->
  (forall s1 s2 : str,
      let tok := error_token c (Z.of_nat (length s1)) in
      tokenize' (s1 ++ c :: s2) =
      tokenize_from' 0 s1 ++
      tok :: tokenize_from' (Z.of_nat (length s1) + 1) s2 /\
      symbol tok = c /\ type_ tok = CORE /\ precedence tok = 10%Z /\
      (forall k, (precedence_rules k < precedence tok)%Z) /\
      (forall h, flagged h tok = true)) /\
  (forall a b : char,
      isspace a = false -> isspace b = false ->
      type_ (emitted' a 0) = OPERATOR -> type_ (emitted' b 2) = OPERATOR ->
      flagged heap (emitted' a 0) = false ->
      flagged heap (emitted' b 2) = false ->
      exists root,
        parse' [a; c; b] = Ok root /\
        validate_ast heap root = [issue c]).
Proof.
  intros Hsp Hd Ho Hr. split.
  - intros s1 s2 tok. repeat split.
    + rewrite tokenize_loop, tokenize_from_app, tokenize_from_cons by exact Hsp.
      unfold emitted. rewrite (create_unknown _ _ _ c _ Hd Ho Hr).
      reflexivity.
    + intros k. destruct k; reflexivity.
  - intros a b Hsa Hsb Ha Hb Hfa Hfb.
    unfold parse_k_spk_expression.
    rewrite tokenize_loop, !tokenize_from_cons by assumption.
    change (0 + 1 + 1)%Z with 2%Z. change (0 + 1)%Z with 1%Z.
    cbn [tokenize_from parse_to_ast].
    replace (emitted' c 1) with (error_token c 1)
      by (unfold emitted; now rewrite (create_unknown _ _ _ c _ Hd Ho Hr)).
    rewrite build_operator_operand_operator;
      [|assumption|assumption|reflexivity|now apply emitted_typed..].
    assert (Hfc : flagged heap (error_token c 1) = true) by reflexivity.
    destruct (precedence (emitted' a 0) <=? precedence (emitted' b 2))%Z;
      eexists; (split; [reflexivity|]);
      cbn [validate_ast flat_map]; rewrite Hfa, Hfb, Hfc; reflexivity.
Qed.

(** The members of the operator set are known operators for every table. *)
Lemma operator_set_known (c : char) (pos : Z) :
  c ∈ operators ->
  type_ (emitted' c pos) = OPERATOR /\
  forall h, flagged h (emitted' c pos) = false.
Proof.
  intros Hc. unfold emitted.
  rewrite (create_operator lower rosetta heap c pos Hc). now split.
Qed.

(** C5. A string made of whitespace only, the empty string included,
    tokenizes to the empty sequence, and parsing that sequence fails with
    the empty-input error. *)
Theorem whitespace_only_is_empty_input (s : str) :
  forallb isspace s = true ->
  tokenize' s = [] /\
  parse_to_ast (tokenize' s) = Raise empty_input.
Proof.
  intros Hs. apply strip_nil in Hs. unfold tokenize. now rewrite Hs.
Qed.

(** C6. For every single character that is not whitespace, known or not,
    delimiters and operators included, tokenizing and parsing the
    one-character string returns a tree of one node, without children, whose
    token carries that character. *)
Theorem single_symbol_is_leaf (c : char) :
  isspace c = false ->
  exists root,
    parse' [c] = Ok root /\
    symbol (token root) = c /\
    is_leaf root = true /\
    children root = [] /\
    subnodes root = [root] /\
    tokenize' [c] = [token root].
Proof.
  intros Hc. exists (Node (emitted' c 0) []).
  unfold parse_k_spk_expression.
  rewrite tokenize_loop, tokenize_from_cons by exact Hc.
  cbn [tokenize_from parse_to_ast token children subnodes flat_map is_leaf].
  now rewrite emitted_symbol.
Qed.

(** C10, amended. A symbol of the table that is not whitespace, not a
    delimiter and not in the operator set is tokenized with the entry of the
    table itself as metadata, the object and not a copy of it; and
    [validate_ast] reports an issue for every node whose entry holds a true
    ['error'] in the store at the time of the validation. *)
Theorem table_entry_is_metadata (c : char) (l : loc) :
  isspace c = false ->
  delimiters c = None -> c ∉ operators -> rosetta !! c = Some l ->
  (forall s1 s2 : str,
      exists tok,
        tokenize' (s1 ++ c :: s2) =
        tokenize_from' 0 s1 ++
        tok :: tokenize_from' (Z.of_nat (length s1) + 1) s2 /\
        symbol tok = c /\ metadata tok = Entry l) /\
  (forall (store : Heap) (root n : KSpkASTNode),
      In n (subnodes root) ->
      metadata (token n) = Entry l ->
      truthy (default (PBool false) (d_error (store l))) = true ->
      In (issue (symbol (token n))) (validate_ast store root)).
Proof.
  intros Hsp Hd Ho Hr. split.
  - intros s1 s2.
    destruct (create_entry lower rosetta heap c l (Z.of_nat (length s1))
                           Hd Ho Hr) as (tok & Htok & Hsym & _ & Hmeta).
    exists tok. repeat split; [|assumption..].
    rewrite tokenize_loop, tokenize_from_app, tokenize_from_cons by exact Hsp.
    rewrite Z.add_0_l. unfold emitted. now rewrite Htok.
  - intros store root n Hn Hmeta Herr.
    apply validate_reports; [exact Hn|].
    unfold flagged. now rewrite Hmeta.
Qed.

End Claims.

(** C4. A parse fails with a mismatched-delimiter error exactly when the
    grouping is unbalanced: at the first close delimiter that finds no open
    delimiter on the operator stack, reporting that delimiter's position and
    symbol, and at the end of the tokens when an open delimiter is left on
    the operator stack. On balanced input no such error is raised.
    [parse_to_ast] runs the builder on two tokens or more and raises its
    failure again. *)
Theorem mismatched_delimiter_exactly (tokens : list KSpkToken) :
  delimiters_typed tokens ->
  (forall tok,
      delimiter_scan 0 tokens = inl tok ->
      _build_expression_tree tokens = Raise (mismatched_closing tok)) /\
  (forall depth,
      delimiter_scan 0 tokens = inr (S depth) ->
      _build_expression_tree tokens = Raise mismatched_opening) /\
  ((exists e, _build_expression_tree tokens = Raise e /\
              MismatchedDelimiter e) <->
   delimiter_scan 0 tokens <> inr 0) /\
  ((exists e, MismatchedDelimiter e /\
              _build_expression_tree tokens = Raise e /\
              parse_to_ast tokens = Raise (reraised e)) <->
   2 <= length tokens /\ delimiter_scan 0 tokens <> inr 0).
Proof.
  intros Hwf. pose proof (build_by_scan tokens Hwf) as H.
  assert (Hiff : (exists e, _build_expression_tree tokens = Raise e /\
                            MismatchedDelimiter e) <->
                 delimiter_scan 0 tokens <> inr 0).
  { split.
    - intros (e & He & Hm) Hscan. rewrite Hscan in H.
      destruct H as [(root & Hr)|(n & _ & Hr)]; rewrite Hr in He.
      + discriminate.
      + injection He as <-. now apply malformed_not_mismatched in Hm.
    - intros Hscan. destruct (delimiter_scan 0 tokens) as [tok|[|depth]].
      + eexists. split; [exact H | apply mismatched_closing_is].
      + congruence.
      + eexists. split; [exact H | apply mismatched_opening_is]. }
  split; [|split; [|split; [exact Hiff|]]].
  - intros tok Hscan. now rewrite Hscan in H.
  - intros depth Hscan. now rewrite Hscan in H.
  - split.
    + intros (e & Hm & He & Hp). split; [|apply Hiff; eauto].
      destruct tokens as [|t1 [|t2 tokens]]; cbn [length]; [| |lia].
      * cbn in Hp. apply (f_equal (fun r => match r with
                                            | Raise x => hd 0%N (err_message x)
                                            | Ok _ => 0%N
                                            end)) in Hp.
        vm_compute in Hp. discriminate.
      * discriminate.
    + intros [Hlen Hscan]. apply Hiff in Hscan as (e & He & Hm).
      exists e. repeat split; [assumption..|].
      destruct tokens as [|t1 [|t2 tokens]]; cbn in Hlen; try lia.
      cbn [parse_to_ast]. now rewrite He.
Qed.

(** C7. Popping an operator token builds a node around it: with two or more
    operands the two topmost become its children, the deeper one as child 0
    and the topmost as child 1; a single operand becomes its only child;
    with none the node has no child. The node is pushed on the operand stack
    in every case, and the operands of the stack keep their order. *)
Theorem pop_and_reduce (operator_token : KSpkToken)
        (operator_stack : list KSpkToken) (output_stack : list KSpkASTNode) :
  type_ operator_token = OPERATOR ->
  let result :=
    _pop_operator_to_output (operator_token :: operator_stack, output_stack) in
  fst result = operator_stack /\
  (forall right_child left_child rest,
      output_stack = right_child :: left_child :: rest ->
      snd result = Node operator_token [left_child; right_child] :: rest) /\
  (forall child,
      output_stack = [child] ->
      snd result = [Node operator_token [child]]) /\
  (output_stack = [] -> snd result = [Node operator_token []]) /\
  (exists cs rest, snd result = Node operator_token cs :: rest) /\
  stack_operands (snd result) = stack_operands output_stack.
Proof.
  intros Hop result. subst result. rewrite pop_cons. cbn [fst snd].
  repeat split.
  - intros r l rest ->. now apply attach_operator_two.
  - intros child ->. now apply attach_operator_one.
  - intros ->. now apply attach_operator_nil.
  - destruct output_stack as [|r [|l rest]].
    + rewrite attach_operator_nil by exact Hop. eauto.
    + rewrite attach_operator_one by exact Hop. eauto.
    + rewrite attach_operator_two by exact Hop. eauto.
  - apply attach_operands. unfold is_operand. rewrite Hop.
    apply andb_false_r.
Qed.



(** The order kept is that of the operands. An operator that is reduced
    early stays inside the operand it has become: here the first operator
    ends below the second one, to the right of the first operand. *)
Example early_operator_stays_in_its_operand :
  let input := [OPLUS; 65; 66; 67; OTIMES]%N in
  exists t_oplus t_a t_b t_c t_otimes,
    test_tokenize input = [t_oplus; t_a; t_b; t_c; t_otimes] /\
    test_parse input =
      Ok (Node t_otimes [Node t_a [];
                         Node t_oplus [Node t_b []; Node t_c []]]).
Proof.
  cbv zeta. do 5 eexists. split; vm_compute; reflexivity.
Qed.


(** ** The two examples of the tests, for every table *)

Section EveryTable.

Variable isspace : char -> bool.
Variable lower : str -> str.
Variable rosetta : gmap char loc.
Variable heap : Heap.

(** Whatever the table says, the two delimiters and the operator of the
    grouped expression are typed by the parser itself; as soon as the other
    two symbols are operands, two trees are left and the parse fails. *)
Lemma grouped_operands_are_rejected :
  isspace OPEN = false -> isspace OPLUS = false ->
  isspace HOURGLASS = false -> isspace CLOSE = false ->
  isspace DIAMOND = false ->
  is_operand (emitted lower rosetta heap HOURGLASS 2) = true ->
  is_operand (emitted lower rosetta heap DIAMOND 4) = true ->
  parse_k_spk_expression isspace lower rosetta heap
                         [OPEN; OPLUS; HOURGLASS; CLOSE; DIAMOND] =
  Raise (reraised (malformed 2)).
Proof.
  intros H1 H2 H3 H4 H5 Hh Hd.
  unfold parse_k_spk_expression.
  rewrite tokenize_loop, !tokenize_from_cons by assumption.
  change (0 + 1 + 1 + 1 + 1)%Z with 4%Z. change (0 + 1 + 1 + 1)%Z with 3%Z.
  change (0 + 1 + 1)%Z with 2%Z. change (0 + 1)%Z with 1%Z.
  cbn [tokenize_from].
  set (th := emitted lower rosetta heap HOURGLASS 2) in *.
  set (td := emitted lower rosetta heap DIAMOND 4) in *.
  change (emitted lower rosetta heap OPEN 0)
    with (mkToken OPEN DELIMITER 0 (py "delimiter_open") 0 (Fresh empty_dict)).
  change (emitted lower rosetta heap CLOSE 3)
    with (mkToken CLOSE DELIMITER 0 (py "delimiter_close") 3
                  (Fresh empty_dict)).
  replace (emitted lower rosetta heap OPLUS 1)
    with (mkToken OPLUS OPERATOR 4 (py "operator_" ++ [OPLUS]) 1
                  (Fresh empty_dict)).
  2:{ unfold emitted. rewrite create_operator; [reflexivity|].
      apply operators_spec. now left. }
  cbn [parse_to_ast]. unfold _build_expression_tree.
  cbn [process_tokens].
  change (process_token ([], []) (mkToken OPEN ?a ?b ?c ?d ?e))
    with (Ok ([mkToken OPEN a b c d e], @nil KSpkASTNode)).
  cbv iota beta.
  match goal with
  | |- context [process_token ?st (mkToken OPLUS ?a ?b ?c ?d ?e)] =>
      change (process_token st (mkToken OPLUS a b c d e))
        with (Ok (mkToken OPLUS a b c d e :: fst st, snd st))
  end.
  cbn [fst snd]. rewrite (process_token_operand _ th Hh). cbn [fst snd].
  match goal with
  | |- context [process_token ?st (mkToken CLOSE ?a ?b ?c ?d ?e)] =>
      let r := eval vm_compute in
                 (process_token st (mkToken CLOSE a b c d e)) in
      change (process_token st (mkToken CLOSE a b c d e)) with r
  end.
  cbv iota beta.
  rewrite (process_token_operand _ td Hd). cbn [fst snd].
  reflexivity.
Qed.

(** The arrow is in the operator set: no table makes it a routing token. *)
Lemma arrow_is_operator_for_every_table (pos : Z) :
  emitted lower rosetta heap ARROW pos =
  mkToken ARROW OPERATOR 4 (py "operator_" ++ [ARROW]) pos (Fresh empty_dict).
Proof.
  unfold emitted. rewrite create_operator; [reflexivity|].
  apply operators_spec. now do 5 right.
Qed.

End EveryTable.

(** ** The fixtures of the tests *)

Lemma LETTER_X_unknown :
  py_isspace LETTER_X = false /\ delimiters LETTER_X = None /\
  (LETTER_X ∉ operators) /\ TEST_ROSETTA !! LETTER_X = None.
Proof.
  repeat split.
  intros H%operators_spec. vm_compute in H.
  destruct H as [H|[H|[H|[H|[H|H]]]]]; discriminate.
Defined.

(** C1. On the table of the tests, the grouped expression is tokenized as
    delimiter, operator, temporal, delimiter, modifier. The group reduces
    to the operator over the temporal symbol; the modifier is an operand,
    so two trees are left on the operand stack and the parse fails. *)
Theorem grouped_expression_is_rejected :
  let input := [OPEN; OPLUS; HOURGLASS; CLOSE; DIAMOND] in
  List.map shape (test_tokenize input) =
    [(OPEN, DELIMITER, 0%Z); (OPLUS, OPERATOR, 4%Z); (HOURGLASS, TEMPORAL, 2%Z);
     (CLOSE, DELIMITER, 0%Z); (DIAMOND, MODIFIER, 7%Z)] /\
  (exists t_oplus t_hourglass t_diamond,
      shape t_oplus = (OPLUS, OPERATOR, 4%Z) /\
      shape t_hourglass = (HOURGLASS, TEMPORAL, 2%Z) /\
      shape t_diamond = (DIAMOND, MODIFIER, 7%Z) /\
      process_tokens ([], []) (test_tokenize input) =
      Ok ([], [Node t_diamond []; Node t_oplus [Node t_hourglass []]])) /\
  _build_expression_tree (test_tokenize input) = Raise (malformed 2) /\
  test_parse input =
  Raise (mkParseError
           (py "Failed to build AST: Parse Error at position -1: Invalid expression structure: 2 root nodes (symbol: '')")
           (-1) []).
Proof.
  cbv zeta. split; [reflexivity|]. split; [|split; reflexivity].
  do 3 eexists. repeat split; try (vm_compute; reflexivity).
Qed.

(** C2. On the table of the tests the arrow is taken from the operator set
    before the table is consulted: it is an operator token with the
    precedence of the logical category, it goes to the operator stack, it is
    reduced first, without operands, and the root of the tree is the second
    operator. A symbol that the table types as routing is an operand: it is
    pushed as a leaf. *)
Theorem arrow_is_operator_not_routing :
  let input := [ARROW; OPLUS; HOURGLASS] in
  List.map shape (test_tokenize input) =
    [(ARROW, OPERATOR, 4%Z); (OPLUS, OPERATOR, 4%Z);
     (HOURGLASS, TEMPORAL, 2%Z)] /\
  (exists t_arrow t_oplus t_hourglass,
      test_tokenize input = [t_arrow; t_oplus; t_hourglass] /\
      process_token ([], []) t_arrow = Ok ([t_arrow], []) /\
      process_token ([t_arrow], []) t_oplus =
        Ok ([t_oplus], [Node t_arrow []]) /\
      test_parse input =
        Ok (Node t_oplus [Node t_arrow []; Node t_hourglass []])) /\
  (exists t_route,
      tokenize py_isspace ascii_lower ROUTED_ROSETTA ROUTED_HEAP
               [DOUBLE_ARROW] = [t_route] /\
      shape t_route = (DOUBLE_ARROW, ROUTING, 1%Z) /\
      process_token ([], []) t_route = Ok ([], [Node t_route []])).
Proof.
  cbv zeta. split; [reflexivity|]. split.
  - do 3 eexists. split; [vm_compute; reflexivity|].
    repeat split; vm_compute; reflexivity.
  - eexists. split; [vm_compute; reflexivity|]. split; reflexivity.
Qed.

(** Every error that [parse_to_ast] raises has the default position and the
    default symbol. *)
Lemma parse_to_ast_error_fields (tokens : list KSpkToken) (e : ParseError) :
  parse_to_ast tokens = Raise e ->
  err_position e = (-1)%Z /\ err_symbol e = [].
Proof.
  destruct tokens as [|t1 [|t2 tokens]]; cbn [parse_to_ast].
  - now intros [= <-].
  - discriminate.
  - destruct (_build_expression_tree _); [discriminate|].
    now intros [= <-].
Qed.

(** C8. A close delimiter without an open one: the builder raises the error
    with the position and the symbol of the delimiter, and [parse_to_ast]
    raises in its place an error whose position is -1 and whose symbol is
    empty; the two only survive inside the text of the message. *)
Theorem closing_error_loses_position_and_symbol :
  let input := [OPLUS; CLOSE] in
  _build_expression_tree (test_tokenize input) =
    Raise (mkParseError (py "Mismatched closing delimiter") 1 [CLOSE]) /\
  test_parse input =
    Raise (mkParseError
             (py "Failed to build AST: Parse Error at position 1: Mismatched closing delimiter (symbol: '"
              ++ [CLOSE] ++ py "')")
             (-1) []).
Proof. cbv zeta. split; reflexivity. Qed.

(** C10 as stated fails for a symbol of the table that is also in the
    operator set: its token carries a dictionary of its own, and a true
    ['error'] in its entry is not reported. *)
Lemma operator_entry_is_not_metadata :
  TEST_ROSETTA !! OPLUS = Some 0 /\
  truthy (default (PBool false) (d_error (MARKED_HEAP 0))) = true /\
  exists tok,
    tokenize py_isspace ascii_lower TEST_ROSETTA MARKED_HEAP [OPLUS] = [tok] /\
    metadata tok = Fresh empty_dict /\
    metadata tok <> Entry 0 /\
    parse_k_spk_expression py_isspace ascii_lower TEST_ROSETTA MARKED_HEAP
                           [OPLUS] = Ok (Node tok []) /\
    validate_ast MARKED_HEAP (Node tok []) = [].
Proof.
  split; [reflexivity|]. split; [reflexivity|].
  eexists. split; [vm_compute; reflexivity|].
  repeat split. discriminate.
Qed.

(** ** The properties at concrete inputs *)

Lemma unknown_symbol_never_aborts_witness :
  (py_isspace LETTER_X = false /\ delimiters LETTER_X = None /\
   (LETTER_X ∉ operators) /\ TEST_ROSETTA !! LETTER_X = None) /\
  test_tokenize [OPLUS; LETTER_X; HOURGLASS] =
    tokenize_from py_isspace ascii_lower TEST_ROSETTA TEST_HEAP 0 [OPLUS] ++
    error_token LETTER_X 1 ::
    tokenize_from py_isspace ascii_lower TEST_ROSETTA TEST_HEAP 2 [HOURGLASS] /\
  exists root,
    test_parse [OPLUS; LETTER_X; OTIMES] = Ok root /\
    validate_ast TEST_HEAP root = [issue LETTER_X].
Proof.
  split; [exact LETTER_X_unknown|].
  destruct LETTER_X_unknown as (Hsp & Hd & Ho & Hr).
  destruct (unknown_symbol_never_aborts py_isspace ascii_lower TEST_ROSETTA
              TEST_HEAP LETTER_X Hsp Hd Ho Hr) as [Htok Hparse].
  split.
  - exact (proj1 (Htok [OPLUS] [HOURGLASS])).
  - apply (Hparse OPLUS OTIMES); reflexivity.
Defined.

Lemma unclosed_group_typed :
  delimiters_typed (test_tokenize [OPEN; OPLUS; HOURGLASS]).
Proof.
  vm_compute. repeat constructor; cbn; intros H; discriminate.
Defined.

Lemma mismatched_delimiter_exactly_witness :
  delimiters_typed (test_tokenize [OPEN; OPLUS; HOURGLASS]) /\
  _build_expression_tree (test_tokenize [OPEN; OPLUS; HOURGLASS]) =
    Raise mismatched_opening /\
  exists e,
    MismatchedDelimiter e /\
    _build_expression_tree (test_tokenize [OPEN; OPLUS; HOURGLASS]) =
      Raise e /\
    parse_to_ast (test_tokenize [OPEN; OPLUS; HOURGLASS]) =
      Raise (reraised e).
Proof.
  split; [exact unclosed_group_typed|].
  destruct (mismatched_delimiter_exactly
              (test_tokenize [OPEN; OPLUS; HOURGLASS]) unclosed_group_typed)
    as (_ & Hopen & _ & Hparse).
  split.
  - apply (Hopen 0). reflexivity.
  - apply Hparse. split; [vm_compute; lia | vm_compute; discriminate].
Defined.

Lemma whitespace_only_is_empty_input_witness :
  forallb py_isspace [32; 9; 10; 12288]%N = true /\
  test_tokenize [32; 9; 10; 12288]%N = [] /\
  parse_to_ast (test_tokenize [32; 9; 10; 12288]%N) = Raise empty_input.
Proof.
  split; [reflexivity|].
  apply (whitespace_only_is_empty_input py_isspace ascii_lower TEST_ROSETTA
           TEST_HEAP [32; 9; 10; 12288]%N).
  reflexivity.
Defined.

Lemma single_symbol_is_leaf_witness :
  py_isspace CLOSE = false /\
  exists root,
    test_parse [CLOSE] = Ok root /\ symbol (token root) = CLOSE /\
    is_leaf root = true /\
    children root = [] /\ subnodes root = [root] /\
    test_tokenize [CLOSE] = [token root].
Proof.
  split; [reflexivity|].
  apply (single_symbol_is_leaf py_isspace ascii_lower TEST_ROSETTA TEST_HEAP
           CLOSE).
  reflexivity.
Defined.

Lemma pop_and_reduce_witness :
  type_ (plain OPLUS OPERATOR 4) = OPERATOR /\
  _pop_operator_to_output
    ([plain OPLUS OPERATOR 4],
     [Node (plain DIAMOND MODIFIER 7) [];
      Node (plain HOURGLASS TEMPORAL 2) []]) =
  ([], [Node (plain OPLUS OPERATOR 4)
             [Node (plain HOURGLASS TEMPORAL 2) [];
              Node (plain DIAMOND MODIFIER 7) []]]).
Proof.
  split; [reflexivity|].
  destruct (pop_and_reduce (plain OPLUS OPERATOR 4) []
              [Node (plain DIAMOND MODIFIER 7) [];
               Node (plain HOURGLASS TEMPORAL 2) []] eq_refl)
    as (Hops & Htwo & _).
  apply injective_projections; [exact Hops|].
  exact (Htwo _ _ _ eq_refl).
Defined.


Lemma HOURGLASS_entry :
  py_isspace HOURGLASS = false /\ delimiters HOURGLASS = None /\
  (HOURGLASS ∉ operators) /\ TEST_ROSETTA !! HOURGLASS = Some 1.
Proof.
  repeat split.
  intros H%operators_spec. vm_compute in H.
  destruct H as [H|[H|[H|[H|[H|H]]]]]; discriminate.
Defined.

Lemma table_entry_is_metadata_witness :
  (py_isspace HOURGLASS = false /\ delimiters HOURGLASS = None /\
   (HOURGLASS ∉ operators) /\ TEST_ROSETTA !! HOURGLASS = Some 1) /\
  exists tok,
    test_tokenize [OPLUS; HOURGLASS] =
      tokenize_from py_isspace ascii_lower TEST_ROSETTA TEST_HEAP 0 [OPLUS] ++
      [tok] /\
    symbol tok = HOURGLASS /\ metadata tok = Entry 1 /\
    validate_ast TEST_HEAP (Node tok []) = [] /\
    In (issue HOURGLASS)
       (validate_ast (fun _ => mkDict None None None (Some (PInt 1)) None)
                     (Node tok [])).
Proof.
  split; [exact HOURGLASS_entry|].
  destruct HOURGLASS_entry as (Hsp & Hd & Ho & Hr).
  destruct (table_entry_is_metadata py_isspace ascii_lower TEST_ROSETTA
              TEST_HEAP HOURGLASS 1 Hsp Hd Ho Hr) as [Htok Hval].
  destruct (Htok [OPLUS] []) as (tok & Heq & Hsym & Hmeta).
  exists tok. split; [exact Heq|]. split; [exact Hsym|].
  split; [exact Hmeta|]. split.
  - cbn. unfold flagged. now rewrite Hmeta.
  - rewrite <- Hsym.
    apply (Hval (fun _ => mkDict None None None (Some (PInt 1)) None)
                (Node tok []) (Node tok []));
      [now left | exact Hmeta | reflexivity].
Defined.

(** ** Further properties of the tokenizer *)

Lemma contains_here (p rest : str) : startswith p (p ++ rest) = true.
Proof.
  induction p as [|a p IH]; [reflexivity|].
  cbn. now rewrite N.eqb_refl, IH.
Qed.

Lemma contains_middle (p : str) :
  forall pre post, contains p (pre ++ p ++ post) = true.
Proof.
  induction pre as [|a pre IH]; intros post.
  - cbn [app]. destruct (p ++ post) eqn:E.
    + destruct p; [reflexivity | discriminate].
    + cbn [contains]. rewrite <- E, contains_here. reflexivity.
  - cbn [app contains]. rewrite IH. apply orb_true_r.
Qed.

Lemma ascii_lower_app (a b : str) :
  ascii_lower (a ++ b) = ascii_lower a ++ ascii_lower b.
Proof. apply List.map_app. Qed.

Section TokenizerExtras.

Variable isspace : char -> bool.
Variable lower : str -> str.
Variable rosetta : gmap char loc.
Variable heap : Heap.

Local Abbreviation tokenize_from' := (tokenize_from isspace lower rosetta heap).
Local Abbreviation tokenize' := (tokenize isspace lower rosetta heap).
Local Abbreviation emitted' := (emitted lower rosetta heap).

Lemma emitted_shift c pos k :
  emitted' c (pos + k) = shift_position k (emitted' c pos).
Proof.
  unfold emitted, _create_token, shift_position.
  destruct (delimiters c); [reflexivity|].
  destruct (bool_decide (c ∈ operators)); [reflexivity|].
  destruct (rosetta !! c); reflexivity.
Qed.

Lemma emitted_erase c pos pos' :
  erase_position (emitted' c pos) = erase_position (emitted' c pos').
Proof.
  unfold emitted, _create_token, erase_position.
  destruct (delimiters c); [reflexivity|].
  destruct (bool_decide (c ∈ operators)); [reflexivity|].
  destruct (rosetta !! c); reflexivity.
Qed.

Lemma emitted_at c pos : position (emitted' c pos) = pos.
Proof.
  unfold emitted, _create_token.
  destruct (delimiters c); [reflexivity|].
  destruct (bool_decide (c ∈ operators)); [reflexivity|].
  destruct (rosetta !! c); reflexivity.
Qed.

Lemma tokenize_from_shift s :
  forall pos k,
    tokenize_from' (pos + k) s =
    List.map (shift_position k) (tokenize_from' pos s).
Proof.
  induction s as [|c s IH]; intros pos k; [reflexivity|].
  destruct (isspace c) eqn:Hc.
  - cbn [tokenize_from]. rewrite Hc.
    replace (pos + k + 1)%Z with (pos + 1 + k)%Z by lia. apply IH.
  - rewrite !tokenize_from_cons by exact Hc. cbn [List.map].
    replace (pos + k + 1)%Z with (pos + 1 + k)%Z by lia.
    now rewrite IH, emitted_shift.
Qed.

Lemma tokenize_from_symbols s :
  forall pos,
    List.map symbol (tokenize_from' pos s) =
    List.filter (fun c => negb (isspace c)) s.
Proof.
  induction s as [|c s IH]; intros pos; [reflexivity|].
  destruct (isspace c) eqn:Hc.
  - cbn [tokenize_from List.filter]. rewrite Hc. cbn [negb]. apply IH.
  - rewrite tokenize_from_cons by exact Hc.
    cbn [List.map List.filter]. rewrite Hc. cbn [negb].
    now rewrite emitted_symbol, IH.
Qed.

Lemma tokenize_from_positions s :
  forall pos tok,
    In tok (tokenize_from' pos s) ->
    (pos <= position tok)%Z /\
    nth_error s (Z.to_nat (position tok - pos)) = Some (symbol tok) /\
    tok = emitted' (symbol tok) (position tok).
Proof.
  induction s as [|c s IH]; intros pos tok; [intros []|].
  assert (Hrest : In tok (tokenize_from' (pos + 1) s) ->
                  (pos <= position tok)%Z /\
                  nth_error (c :: s) (Z.to_nat (position tok - pos)) =
                    Some (symbol tok) /\
                  tok = emitted' (symbol tok) (position tok)).
  { intros Hin. destruct (IH _ _ Hin) as (Hle & Hnth & Heq).
    split; [lia|]. split; [|exact Heq].
    replace (Z.to_nat (position tok - pos))
      with (S (Z.to_nat (position tok - (pos + 1)))) by lia.
    exact Hnth. }
  destruct (isspace c) eqn:Hc.
  - cbn [tokenize_from]. rewrite Hc. exact Hrest.
  - rewrite tokenize_from_cons by exact Hc.
    intros [<-|Hin]; [|now apply Hrest].
    rewrite emitted_at, emitted_symbol, Z.sub_diag. repeat split. lia.
Qed.

Lemma tokenize_from_indexed s :
  forall n,
    tokenize_from' (Z.of_nat n) s =
    List.map (fun p => emitted' (snd p) (fst p))
      (List.filter (fun p => negb (isspace (snd p)))
         (combine (List.map Z.of_nat (seq n (length s))) s)).
Proof.
  induction s as [|c s IH]; intros n; [reflexivity|].
  cbn [length seq List.map combine List.filter snd].
  specialize (IH (S n)). rewrite Nat2Z.inj_succ in IH. unfold Z.succ in IH.
  destruct (isspace c) eqn:Hc.
  - cbn [tokenize_from]. rewrite Hc. cbn [negb]. exact IH.
  - rewrite tokenize_from_cons by exact Hc.
    cbn [negb List.map fst snd]. now rewrite IH.
Qed.

(** X1. The tokens of a string are its characters that are not whitespace,
    in order, one token each: the token of such a character is the one the
    classifier builds for it at its offset in the string, whitespace
    counted. So the positions of the tokens are exactly the offsets of the
    characters that are not whitespace, and their symbols those
    characters. *)
Theorem tokens_are_the_visible_characters (s : str) :
  tokenize' s =
    List.map (fun p => emitted' (snd p) (fst p)) (visible isspace s) /\
  List.map position (tokenize' s) = List.map fst (visible isspace s) /\
  List.map symbol (tokenize' s) = List.filter (fun c => negb (isspace c)) s /\
  forall tok,
    In tok (tokenize' s) ->
    (0 <= position tok)%Z /\
    nth_error s (Z.to_nat (position tok)) = Some (symbol tok) /\
    isspace (symbol tok) = false /\
    tok = emitted' (symbol tok) (position tok).
Proof.
  assert (Hexact : tokenize' s =
                   List.map (fun p => emitted' (snd p) (fst p))
                            (visible isspace s)).
  { rewrite tokenize_loop. exact (tokenize_from_indexed s 0). }
  split; [exact Hexact|]. split.
  { rewrite Hexact, List.map_map. apply List.map_ext. intros p.
    apply emitted_at. }
  rewrite tokenize_loop. split; [apply tokenize_from_symbols|].
  intros tok Hin.
  destruct (tokenize_from_positions s 0 tok Hin) as (Hle & Hnth & Heq).
  rewrite Z.sub_0_r in Hnth. repeat split; try assumption.
  apply (in_map symbol) in Hin. rewrite tokenize_from_symbols in Hin.
  apply List.filter_In in Hin as [_ Hsp]. now apply negb_true_iff in Hsp.
Qed.

(** X2. Tokenizing a concatenation: the tokens of the first string, then
    those of the second one moved by the length of the first. *)
Theorem tokenize_concatenation (s1 s2 : str) :
  tokenize' (s1 ++ s2) =
  tokenize' s1 ++
  List.map (shift_position (Z.of_nat (length s1))) (tokenize' s2).
Proof.
  rewrite !tokenize_loop, tokenize_from_app.
  now rewrite <- tokenize_from_shift.
Qed.

Lemma tokenize_from_erase s :
  forall pos pos',
    List.map erase_position (tokenize_from' pos s) =
    List.map erase_position
      (tokenize_from' pos' (List.filter (fun c => negb (isspace c)) s)).
Proof.
  induction s as [|c s IH]; intros pos pos'; [reflexivity|].
  destruct (isspace c) eqn:Hc.
  - cbn [tokenize_from List.filter]. rewrite Hc. cbn [negb]. apply IH.
  - cbn [List.filter]. rewrite Hc. cbn [negb].
    rewrite !tokenize_from_cons by exact Hc. cbn [List.map].
    now rewrite (emitted_erase c pos pos'), (IH (pos + 1)%Z (pos' + 1)%Z).
Qed.

(** X5. Unless the entry of the table gives an explicit precedence, the
    precedence of a token is the rule of its type, 10 for an unknown
    symbol; the rules of the spatial and emotional categories, 3 and 5, are
    never assigned. *)
Theorem precedence_follows_type (c : char) (pos : Z) :
  (forall l, rosetta !! c = Some l -> d_precedence (heap l) = None) ->
  precedence (emitted' c pos) =
    match _create_token lower rosetta heap c pos with
    | Some tok => precedence_rules (type_to_category (type_ tok))
    | None => 10%Z
    end /\
  precedence (emitted' c pos) <> precedence_rules spatial /\
  precedence (emitted' c pos) <> precedence_rules emotional.
Proof.
  intros Hno. unfold emitted, _create_token.
  destruct (delimiters c); [now cbn|].
  destruct (bool_decide (c ∈ operators)); [now cbn|].
  destruct (rosetta !! c) as [l|] eqn:Hl; [|now cbn].
  cbn [precedence type_]. unfold _get_precedence. rewrite (Hno l eq_refl).
  split; [reflexivity|].
  destruct (_classify_symbol lower (heap l)); now cbn.
Qed.

End TokenizerExtras.

(** X4. The delimiters and the members of the operator set are typed by
    the parser alone: whatever the table holds for them, their token is the
    same, a delimiter or an operator with a metadata dictionary of its
    own. *)
Theorem builtin_symbols_ignore_the_table
        (lower lower' : str -> str) (rosetta rosetta' : gmap char loc)
        (heap heap' : Heap) (c : char) (pos : Z) :
  delimiters c <> None \/ c ∈ operators ->
  emitted lower rosetta heap c pos = emitted lower' rosetta' heap' c pos /\
  metadata (emitted lower rosetta heap c pos) = Fresh empty_dict /\
  (type_ (emitted lower rosetta heap c pos) = DELIMITER \/
   type_ (emitted lower rosetta heap c pos) = OPERATOR).
Proof.
  intros Hc. unfold emitted, _create_token.
  destruct (delimiters c) eqn:Hd; [cbn; auto|].
  destruct Hc as [Hc|Hc]; [congruence|].
  rewrite (bool_decide_eq_true_2 _ Hc). cbn. auto.
Qed.

(** X6. Classification is by keyword, anywhere in the category and in any
    case of its ASCII letters, and the temporal keywords are tried first: a
    category that holds "temporal" or "time" is temporal whatever else it
    names; one that does not and holds "modifier" or "dimensional" is a
    modifier even when it also names an operator or a routing. *)
Theorem classification_by_keyword (d : Dict) (pre kw post : str) :
  d_category d = Some (pre ++ kw ++ post) ->
  (ascii_lower kw = py "temporal" \/ ascii_lower kw = py "time" ->
   _classify_symbol ascii_lower d = TEMPORAL) /\
  (ascii_lower kw = py "modifier" \/ ascii_lower kw = py "dimensional" ->
   contains (py "temporal") (ascii_lower (pre ++ kw ++ post)) = false ->
   contains (py "time") (ascii_lower (pre ++ kw ++ post)) = false ->
   _classify_symbol ascii_lower d = MODIFIER).
Proof.
  intros Hcat. unfold _classify_symbol. rewrite Hcat.
  change (default [] (Some (pre ++ kw ++ post))) with (pre ++ kw ++ post).
  rewrite !ascii_lower_app. split.
  - intros [Hk|Hk]; rewrite Hk, contains_middle;
      [reflexivity | now rewrite orb_true_r].
  - intros Hk H1 H2. rewrite H1, H2.
    cbn [orb]. destruct Hk as [Hk|Hk]; rewrite Hk, contains_middle;
      [reflexivity | now rewrite orb_true_r].
Qed.

(** ** Further properties of the builder *)

Lemma process_token_raises (st : stacks) (tok : KSpkToken) (e : ParseError) :
  process_token st tok = Raise e ->
  is_close tok = true /\ e = mismatched_closing tok.
Proof.
  destruct st as [ops out]. unfold process_token, is_close.
  destruct (SymbolType_eqb (type_ tok) DELIMITER).
  - destruct (symbol tok =? OPEN)%N; [discriminate|].
    destruct (symbol tok =? CLOSE)%N; [|discriminate].
    destruct (pop_while not_open (ops, out)) as [[|k kept] out'];
      [|discriminate].
    intros [= <-]. now split.
  - destruct (SymbolType_eqb (type_ tok) OPERATOR); [|discriminate].
    now destruct (pop_while _ (ops, out)).
Qed.

Lemma process_tokens_raises :
  forall (tokens : list KSpkToken) (st : stacks) (e : ParseError),
    process_tokens st tokens = Raise e ->
    exists tok, In tok tokens /\ is_close tok = true /\
                e = mismatched_closing tok.
Proof.
  induction tokens as [|tok tokens IH]; intros st e; [discriminate|].
  cbn [process_tokens].
  destruct (process_token st tok) as [st'|e'] eqn:Hstep.
  - intros Hrun. destruct (IH _ _ Hrun) as (t & Hin & Ht).
    exists t. split; [now right | exact Ht].
  - intros [= <-]. apply process_token_raises in Hstep.
    exists tok. split; [now left | exact Hstep].
Qed.

Lemma build_raises (tokens : list KSpkToken) (e : ParseError) :
  _build_expression_tree tokens = Raise e ->
  (exists tok, In tok tokens /\ is_close tok = true /\
               e = mismatched_closing tok) \/
  e = mismatched_opening \/
  (exists n, n <> 1 /\ e = malformed n).
Proof.
  unfold _build_expression_tree.
  destruct (process_tokens ([], []) tokens) as [[ops out]|e'] eqn:Hrun.
  - cbn [fst]. rewrite pop_remaining_spec.
    destruct (opens ops); [|intros [= <-]; auto].
    destruct (fold_left _ ops out) as [|r [|r2 rest]]; intros [= <-].
    + right. right. exists 0. now split.
    + right. right. exists (S (S (length rest))). split; [lia|reflexivity].
  - intros [= <-]. left. now apply process_tokens_raises in Hrun.
Qed.

Lemma process_operands :
  forall (tokens : list KSpkToken) (st : stacks),
    Forall (fun tok => is_operand tok = true) tokens ->
    process_tokens st tokens =
    Ok (fst st, rev (List.map (fun tok => Node tok []) tokens) ++ snd st).
Proof.
  induction tokens as [|tok tokens IH]; intros [ops out] Hall.
  - reflexivity.
  - inversion Hall as [|? ? Htok Hrest]; subst.
    cbn [process_tokens]. rewrite (process_token_operand _ tok Htok).
    rewrite IH by exact Hrest. cbn [fst snd List.map rev].
    now rewrite <- app_assoc.
Qed.

(** X12. Operands alone, two or more of them, never make a tree: each one
    is left on the operand stack and the parse fails, reporting their
    number. *)
Theorem operands_alone_are_malformed (tokens : list KSpkToken) :
  Forall (fun tok => is_operand tok = true) tokens ->
  2 <= length tokens ->
  _build_expression_tree tokens = Raise (malformed (length tokens)) /\
  parse_to_ast tokens = Raise (reraised (malformed (length tokens))).
Proof.
  intros Hall Hlen.
  assert (Hb : _build_expression_tree tokens =
               Raise (malformed (length tokens))).
  { unfold _build_expression_tree. rewrite process_operands by exact Hall.
    cbn [fst snd pop_remaining length]. rewrite app_nil_r.
    assert (Hl : length (rev (List.map (fun tok => Node tok []) tokens)) =
                 length tokens) by now rewrite length_rev, length_map.
    destruct (rev _) as [|r [|r2 rest]]; cbn in Hl; try lia.
    now rewrite <- Hl. }
  split; [exact Hb|].
  destruct tokens as [|t1 [|t2 tokens]]; cbn in Hlen; try lia.
  cbn [parse_to_ast]. now rewrite Hb.
Qed.

Lemma waiting_app a b : waiting (a ++ b) = waiting a + waiting b.
Proof. unfold waiting. now rewrite List.filter_app, length_app. Qed.

Lemma waiting_all popped :
  Forall (fun tok => not_open tok = true) popped ->
  waiting popped = length popped.
Proof.
  unfold waiting. induction 1 as [|t l Ht _ IH]; [reflexivity|].
  cbn. rewrite Ht. cbn. now rewrite IH.
Qed.

Lemma waiting_opens ops : waiting ops + opens ops = length ops.
Proof.
  unfold waiting, opens, not_open. induction ops as [|t ops IH]; [reflexivity|].
  cbn. destruct (symbol t =? OPEN)%N; cbn; lia.
Qed.

Lemma attach_length tok out : length out <= length (attach tok out) + 1.
Proof.
  unfold attach, _pop_operator_to_output. cbn [snd].
  destruct (SymbolType_eqb (type_ tok) OPERATOR);
    [destruct out as [|r [|l out]]|]; cbn; lia.
Qed.

Lemma reduce_run_length popped :
  forall out,
    length out <=
    length (fold_left (fun o tok => attach tok o) popped out) + length popped.
Proof.
  induction popped as [|t popped IH]; intros out; cbn [fold_left length];
    [lia|].
  pose proof (IH (attach t out)). pose proof (attach_length t out). lia.
Qed.

Lemma process_token_count (st st' : stacks) (tok : KSpkToken) :
  process_token st tok = Ok st' ->
  length (snd st) + (if is_operand tok then 1 else 0) + waiting (fst st') <=
  length (snd st') + (if is_operator tok then 1 else 0) + waiting (fst st).
Proof.
  destruct st as [ops out]. unfold process_token, is_operand, is_operator.
  cbn [fst snd].
  destruct (SymbolType_eqb (type_ tok) DELIMITER) eqn:Hd.
  - assert (Ho : SymbolType_eqb (type_ tok) OPERATOR = false)
      by (destruct (type_ tok); now try discriminate).
    rewrite Ho. cbn [negb andb].
    destruct (symbol tok =? OPEN)%N eqn:Hopen.
    + intros [= <-]. cbn [fst snd]. unfold waiting. cbn [List.filter].
      unfold not_open at 1. rewrite Hopen. cbn. lia.
    + destruct (symbol tok =? CLOSE)%N; [|intros [= <-]; cbn [fst snd]; lia].
      destruct (pop_while_run not_open ops out)
        as (popped & kept & -> & Hall & Hk & ->).
      destruct kept as [|k kept]; [discriminate|].
      intros [= <-]. cbn [fst snd].
      rewrite waiting_app, (waiting_all _ Hall).
      pose proof (reduce_run_length popped out).
      unfold waiting at 2. cbn [List.filter]. rewrite (Hk k eq_refl).
      fold (waiting kept). lia.
  - cbn [negb andb].
    destruct (SymbolType_eqb (type_ tok) OPERATOR) eqn:Hop; cbn [negb].
    + match goal with |- context [pop_while ?c _] =>
        destruct (pop_while_run c ops out)
          as (popped & kept & -> & Hall & _ & ->)
      end.
      intros [= <-]. cbn [fst snd].
      assert (Hall' : Forall (fun t => not_open t = true) popped).
      { eapply Forall_impl; [exact Hall|].
        cbn. now intros t [H _]%andb_true_iff. }
      rewrite waiting_app, (waiting_all _ Hall').
      pose proof (reduce_run_length popped out).
      assert (waiting (tok :: kept) <= 1 + waiting kept).
      { unfold waiting. cbn [List.filter]. destruct (not_open tok); cbn; lia. }
      lia.
    + intros [= <-]. cbn [fst snd length]. lia.
Qed.

Lemma process_tokens_count :
  forall (tokens : list KSpkToken) (st st' : stacks),
    process_tokens st tokens = Ok st' ->
    length (snd st) + length (List.filter is_operand tokens) +
    waiting (fst st') <=
    length (snd st') + length (List.filter is_operator tokens) +
    waiting (fst st).
Proof.
  induction tokens as [|tok tokens IH]; intros st st'.
  - intros [= <-]. cbn. lia.
  - cbn [process_tokens].
    destruct (process_token st tok) as [st1|e] eqn:Hstep; [|discriminate].
    intros Hrun. pose proof (process_token_count _ _ _ Hstep).
    pose proof (IH _ _ Hrun). cbn [List.filter].
    destruct (is_operand tok), (is_operator tok); cbn [length]; lia.
Qed.

(** X13. A parse can only succeed when the operands are at most one more
    than the operators: an operator takes two operands at most and gives
    one back, so every further operand is one more tree left at the end. *)
Theorem operands_need_operators (tokens : list KSpkToken)
        (root : KSpkASTNode) :
  parse_to_ast tokens = Ok root ->
  length (List.filter is_operand tokens) <=
  length (List.filter is_operator tokens) + 1.
Proof.
  destruct tokens as [|t1 [|t2 tokens]]; cbn [parse_to_ast].
  - discriminate.
  - intros _. cbn. destruct (is_operand t1); cbn; lia.
  - destruct (_build_expression_tree (t1 :: t2 :: tokens)) as [r|e] eqn:Hb;
      [|discriminate].
    intros _. revert Hb. unfold _build_expression_tree.
    destruct (process_tokens ([], []) (t1 :: t2 :: tokens))
      as [[ops out]|e] eqn:Hrun; [|discriminate].
    pose proof (process_tokens_count _ _ _ Hrun) as Hcount.
    cbn [fst snd] in *. rewrite pop_remaining_spec.
    pose proof (waiting_opens ops) as Hw.
    destruct (opens ops); [|discriminate].
    pose proof (reduce_run_length ops out) as Hlen.
    destruct (fold_left _ ops out) as [|r' [|r2 rest]]; try discriminate.
    intros _. cbn [length] in Hlen.
    change (waiting []) with 0 in Hcount. cbn [length] in Hcount. lia.
Qed.

(** X16. Two operators between three operands: the operator with the lower
    precedence number is reduced first and ends deeper in the tree; with
    equal precedence the left one is. *)
Theorem infix_precedence (a b c op1 op2 : KSpkToken) :
  is_operand a = true -> is_operand b = true -> is_operand c = true ->
  type_ op1 = OPERATOR -> type_ op2 = OPERATOR ->
  symbol op1 <> OPEN -> symbol op2 <> OPEN ->
  parse_to_ast [a; op1; b; op2; c] =
  Ok (if (precedence op1 <=? precedence op2)%Z
      then Node op2 [Node op1 [Node a []; Node b []]; Node c []]
      else Node op1 [Node a []; Node op2 [Node b []; Node c []]]).
Proof.
  intros Ha Hb Hc H1 H2 Ho1 Ho2.
  apply N.eqb_neq in Ho1, Ho2.
  assert (Hn1 : not_open op1 = true) by (unfold not_open; now rewrite Ho1).
  cbn [parse_to_ast]. unfold _build_expression_tree. cbn [process_tokens].
  rewrite (process_token_operand _ a Ha). cbn [fst snd].
  rewrite (process_token_operator _ op1 H1), pop_while_nil. cbn [fst snd].
  rewrite (process_token_operand _ b Hb). cbn [fst snd].
  rewrite (process_token_operator _ op2 H2), pop_while_cons, Hn1.
  cbn [andb].
  destruct (precedence op1 <=? precedence op2)%Z.
  - rewrite pop_while_nil. cbn [fst snd].
    rewrite (process_token_operand _ c Hc). cbn [fst snd].
    rewrite pop_remaining_spec, opens_cons, Ho2.
    cbn [opens List.filter length fold_left].
    now rewrite (attach_operator_two op1 _ _ _ H1),
                (attach_operator_two op2 _ _ _ H2).
  - cbn [fst snd].
    rewrite (process_token_operand _ c Hc). cbn [fst snd].
    rewrite pop_remaining_spec, !opens_cons, Ho1, Ho2.
    cbn [opens List.filter length fold_left].
    now rewrite (attach_operator_two op2 _ _ _ H2),
                (attach_operator_two op1 _ _ _ H1).
Qed.

Lemma pop_while_all cond ops :
  forall out,
    Forall (fun tok => cond tok = true) ops ->
    pop_while cond (ops, out) =
    ([], fold_left (fun o tok => attach tok o) ops out).
Proof.
  induction ops as [|t ops IH]; intros out Hall; [reflexivity|].
  inversion Hall as [|? ? Ht Hrest]; subst.
  rewrite pop_while_cons, Ht. now apply IH.
Qed.

Lemma opens_none ops :
  opens ops = 0 -> Forall (fun tok => not_open tok = true) ops.
Proof.
  induction ops as [|t ops IH]; [constructor|].
  rewrite opens_cons. unfold not_open.
  destruct (symbol t =? OPEN)%N eqn:Ho; [discriminate|].
  intros H. constructor; [now rewrite Ho | now apply IH].
Qed.

(** A popping loop does not see below an open delimiter. *)
Lemma pop_while_frame cond (o : KSpkToken) (below : list KSpkToken) :
  (forall tok, cond tok = true -> not_open tok = true) ->
  not_open o = false ->
  forall ops out,
    pop_while cond (ops ++ o :: below, out) =
    (fst (pop_while cond (ops, out)) ++ o :: below,
     snd (pop_while cond (ops, out))).
Proof.
  intros Hcond Ho. induction ops as [|t ops IH]; intros out.
  - cbn [app]. rewrite pop_while_cons, pop_while_nil.
    destruct (cond o) eqn:Hc; [|reflexivity].
    apply Hcond in Hc. congruence.
  - cbn [app]. rewrite !pop_while_cons.
    destruct (cond t); [apply IH | reflexivity].
Qed.

Lemma process_token_frame (o : KSpkToken) (below : list KSpkToken)
      (tok : KSpkToken) ops out ops' out' :
  not_open o = false ->
  process_token (ops, out) tok = Ok (ops', out') ->
  process_token (ops ++ o :: below, out) tok = Ok (ops' ++ o :: below, out').
Proof.
  intros Ho. unfold process_token.
  destruct (SymbolType_eqb (type_ tok) DELIMITER).
  - destruct (symbol tok =? OPEN)%N; [now intros [= <- <-]|].
    destruct (symbol tok =? CLOSE)%N; [|now intros [= <- <-]].
    rewrite (pop_while_frame not_open o below (fun _ H => H) Ho).
    destruct (pop_while not_open (ops, out)) as [[|k kept] out1];
      [discriminate|].
    now intros [= <- <-].
  - destruct (SymbolType_eqb (type_ tok) OPERATOR); [|now intros [= <- <-]].
    match goal with |- context [pop_while ?c (ops, out)] =>
      rewrite (pop_while_frame c o below
                 (fun t H => proj1 (proj1 (andb_true_iff _ _) H)) Ho);
      destruct (pop_while c (ops, out)) as [kept out1]
    end.
    now intros [= <- <-].
Qed.

Lemma process_tokens_frame (o : KSpkToken) (below : list KSpkToken) :
  not_open o = false ->
  forall tokens ops out ops' out',
    process_tokens (ops, out) tokens = Ok (ops', out') ->
    process_tokens (ops ++ o :: below, out) tokens =
    Ok (ops' ++ o :: below, out').
Proof.
  intros Ho. induction tokens as [|tok tokens IH]; intros ops out ops' out'.
  - now intros [= <- <-].
  - cbn [process_tokens].
    destruct (process_token (ops, out) tok) as [[ops1 out1]|e] eqn:Hstep;
      [|discriminate].
    rewrite (process_token_frame o below tok _ _ _ _ Ho Hstep). apply IH.
Qed.

Lemma process_tokens_app :
  forall (a b : list KSpkToken) (st : stacks),
    process_tokens st (a ++ b) =
    match process_tokens st a with
    | Ok st' => process_tokens st' b
    | Raise e => Raise e
    end.
Proof.
  induction a as [|tok a IH]; intros b st; [reflexivity|].
  cbn [app process_tokens].
  destruct (process_token st tok); [apply IH | reflexivity].
Qed.

(** X15. Grouping a whole expression changes nothing: when a token list
    builds a tree, the same list between an open and a close delimiter
    builds the same tree, and no delimiter becomes a node. In particular a
    single operand between delimiters is that operand. *)
Theorem grouping_is_transparent (o c : KSpkToken)
        (tokens : list KSpkToken) (root : KSpkASTNode) :
  is_open o = true -> is_close c = true ->
  _build_expression_tree tokens = Ok root ->
  _build_expression_tree (o :: tokens ++ [c]) = Ok root /\
  parse_to_ast (o :: tokens ++ [c]) = Ok root.
Proof.
  intros Ho Hc Hb.
  assert (Hgoal : _build_expression_tree (o :: tokens ++ [c]) = Ok root).
  { revert Hb. unfold _build_expression_tree.
    destruct (process_tokens ([], []) tokens) as [[ops out]|e] eqn:Hrun;
      [|discriminate].
    cbn [fst]. rewrite pop_remaining_spec.
    destruct (opens ops) eqn:Hopens; [|discriminate].
    destruct (fold_left _ ops out) as [|r [|r2 rest]] eqn:Hfold;
      try discriminate.
    intros [= ->].
    unfold is_open in Ho. apply andb_true_iff in Ho as [Hod Hos].
    unfold is_close in Hc. apply andb_true_iff in Hc as [Hcd Hcs].
    assert (Hno : not_open o = false) by (unfold not_open; now rewrite Hos).
    assert (Hco : (symbol c =? OPEN)%N = false).
    { apply N.eqb_eq in Hcs. rewrite Hcs. reflexivity. }
    cbn [process_tokens]. unfold process_token at 1. rewrite Hod, Hos.
    rewrite process_tokens_app.
    pose proof (process_tokens_frame o [] Hno tokens [] [] ops out Hrun)
      as Hframe.
    cbn [app] in Hframe. rewrite Hframe.
    cbn [process_tokens]. unfold process_token. rewrite Hcd, Hco, Hcs.
    rewrite (pop_while_frame not_open o [] (fun _ H => H) Hno).
    rewrite (pop_while_all not_open ops out (opens_none ops Hopens)).
    cbn [fst snd app]. now rewrite Hfold. }
  split; [exact Hgoal|].
  destruct tokens as [|t tokens]; cbn [app] in Hgoal |- *;
    cbn [parse_to_ast]; now rewrite Hgoal.
Qed.

Lemma chain_subnodes :
  forall root, chain root = true ->
  forall n, In n (subnodes root) -> length (children n) <= 1.
Proof.
  induction root as [tok cs IH] using KSpkASTNode_ind.
  cbn [chain]. intros [Hlen Hcs]%andb_true_iff n Hn.
  cbn [subnodes] in Hn. destruct Hn as [<-|Hn].
  - cbn [children]. now apply Nat.leb_le.
  - apply in_flat_map in Hn as (child & Hc & Hn).
    rewrite Forall_forall in IH. rewrite forallb_forall in Hcs.
    apply (IH child); [now apply list_elem_of_In | now apply Hcs | exact Hn].
Qed.

Lemma plain_operator_not_open tok : plain_operator tok -> not_open tok = true.
Proof.
  intros [_ H]. unfold not_open. apply N.eqb_neq in H. now rewrite H.
Qed.

Lemma attach_chain tok out :
  type_ tok = OPERATOR -> chain_stack out ->
  exists r, attach tok out = [r] /\ chain r = true /\
            length (subnodes r) = S (length (flat_map subnodes out)).
Proof.
  intros Hop [->|(r & -> & Hr)].
  - rewrite attach_operator_nil by exact Hop. eexists. now repeat split.
  - rewrite attach_operator_one by exact Hop. eexists. repeat split.
    cbn. now rewrite Hr.
Qed.

Lemma reduce_run_chain popped :
  forall out,
    Forall plain_operator popped -> chain_stack out ->
    chain_stack (fold_left (fun o tok => attach tok o) popped out) /\
    (popped <> [] ->
     exists r, fold_left (fun o tok => attach tok o) popped out = [r]) /\
    length (flat_map subnodes
              (fold_left (fun o tok => attach tok o) popped out)) =
    length popped + length (flat_map subnodes out).
Proof.
  induction popped as [|t popped IH]; intros out Hall Hout.
  - cbn. repeat split; [exact Hout | congruence].
  - inversion Hall as [|? ? [Ht _] Hrest]; subst. cbn [fold_left].
    destruct (attach_chain t out Ht Hout) as (r & Hr & Hc & Hn).
    assert (Hout' : chain_stack (attach t out)) by (right; eauto).
    destruct (IH (attach t out) Hrest Hout') as (H1 & H2 & H3).
    split; [exact H1|]. split.
    + intros _. destruct popped as [|t' popped].
      * cbn. eauto.
      * apply H2. discriminate.
    + rewrite H3, Hr. cbn [flat_map length]. rewrite app_nil_r. lia.
Qed.

Lemma process_plain_operator (st : stacks) (tok : KSpkToken) :
  plain_operator tok ->
  Forall plain_operator (fst st) -> chain_stack (snd st) ->
  exists st',
    process_token st tok = Ok st' /\
    Forall plain_operator (fst st') /\ chain_stack (snd st') /\
    fst st' <> [] /\
    length (flat_map subnodes (snd st')) + length (fst st') =
    S (length (flat_map subnodes (snd st)) + length (fst st)).
Proof.
  intros Htok Hops Hout. destruct st as [ops out]. cbn [fst snd] in *.
  rewrite (process_token_operator _ tok (proj1 Htok)).
  match goal with |- context [pop_while ?c _] =>
    destruct (pop_while_run c ops out) as (popped & kept & -> & _ & _ & ->)
  end.
  apply Forall_app in Hops as [Hp Hk].
  destruct (reduce_run_chain popped out Hp Hout) as (H1 & _ & H3).
  eexists. split; [reflexivity|]. cbn [fst snd].
  repeat split; [now constructor | exact H1 | discriminate |].
  rewrite H3, length_app. cbn [length]. lia.
Qed.

Lemma process_plain_operators :
  forall (tokens : list KSpkToken) (st : stacks),
    Forall plain_operator tokens ->
    Forall plain_operator (fst st) -> chain_stack (snd st) ->
    exists st',
      process_tokens st tokens = Ok st' /\
      Forall plain_operator (fst st') /\ chain_stack (snd st') /\
      (tokens <> [] -> fst st' <> []) /\
      length (flat_map subnodes (snd st')) + length (fst st') =
      length tokens + (length (flat_map subnodes (snd st)) + length (fst st)).
Proof.
  induction tokens as [|tok tokens IH]; intros st Hall Hops Hout.
  - exists st. repeat split; [assumption..|congruence].
  - inversion Hall as [|? ? Htok Hrest]; subst.
    destruct (process_plain_operator st tok Htok Hops Hout)
      as (st1 & Hstep & Hops1 & Hout1 & Hne & Hn1).
    destruct (IH st1 Hrest Hops1 Hout1) as (st' & Hrun & H1 & H2 & H3 & H4).
    exists st'. cbn [process_tokens]. rewrite Hstep.
    repeat split; try assumption.
    + intros _. destruct tokens as [|t tokens]; [|apply H3; discriminate].
      cbn in Hrun. injection Hrun as <-. exact Hne.
    + cbn [length]. lia.
Qed.

(** ** Tokens in, tokens out *)

Lemma flatten_subnodes :
  forall root, flatten_ast_tokens root = List.map token (subnodes root).
Proof.
  induction root as [tok cs IH] using KSpkASTNode_ind.
  cbn [flatten_ast_tokens subnodes List.map token]. f_equal.
  induction IH as [|c cs Hc _ IHcs]; [reflexivity|].
  cbn [flat_map]. now rewrite List.map_app, Hc, IHcs.
Qed.

Lemma Permutation_List_filter (f : KSpkToken -> bool) (l l' : list KSpkToken) :
  Permutation l l' -> Permutation (List.filter f l) (List.filter f l').
Proof.
  induction 1 as [|x l l' _ IH|x y l|l l' l'' _ IH1 _ IH2]; cbn [List.filter].
  - constructor.
  - destruct (f x); [now constructor | exact IH].
  - destruct (f x), (f y); try reflexivity. apply perm_swap.
  - now transitivity (List.filter f l').
Qed.

Lemma attach_tokens tok out :
  Permutation (stack_tokens (attach tok out)) (tok :: stack_tokens out).
Proof.
  unfold stack_tokens, attach, _pop_operator_to_output. cbn [snd].
  destruct (SymbolType_eqb (type_ tok) OPERATOR);
    [destruct out as [|r [|l out]]|]; cbn [snd flat_map flatten_ast_tokens];
    rewrite ?app_nil_r; try reflexivity.
  constructor. rewrite !app_assoc. apply Permutation_app_tail.
  apply Permutation_app_comm.
Qed.

Lemma reduce_run_tokens popped :
  forall out,
    Permutation (stack_tokens (fold_left (fun o tok => attach tok o) popped out))
                (popped ++ stack_tokens out).
Proof.
  induction popped as [|t popped IH]; intros out; [reflexivity|].
  cbn [fold_left app]. rewrite IH, attach_tokens.
  symmetry. apply Permutation_middle.
Qed.

Lemma sorted_not_delimiter popped :
  operator_stack_sorted popped ->
  Forall (fun tok => not_open tok = true) popped ->
  List.filter not_delimiter popped = popped.
Proof.
  unfold operator_stack_sorted.
  induction 1 as [|t l Ht _ IH]; intros Hno; [reflexivity|].
  inversion Hno as [|? ? Hn Hrest]; subst. cbn [List.filter].
  destruct Ht as [Ht|[Ht _]].
  - unfold is_open in Ht. apply andb_true_iff in Ht as [_ Ht].
    unfold not_open in Hn. rewrite Ht in Hn. discriminate.
  - assert (Hnd : not_delimiter t = true)
      by (unfold not_delimiter; now rewrite Ht).
    now rewrite Hnd, IH.
Qed.

Lemma sorted_open_is_delimiter tok :
  (is_open tok = true \/ (type_ tok = OPERATOR /\ symbol tok <> OPEN)) ->
  not_open tok = false ->
  not_delimiter tok = false.
Proof.
  unfold not_open, not_delimiter, is_open.
  intros [Ht|[_ Ht]] Hn.
  - apply andb_true_iff in Ht as [Ht _]. now rewrite Ht.
  - apply N.eqb_neq in Ht. rewrite Ht in Hn. discriminate.
Qed.

Lemma process_token_conserves (st st' : stacks) (tok : KSpkToken) :
  (type_ tok = OPERATOR -> symbol tok <> OPEN) ->
  operator_stack_sorted (fst st) ->
  process_token st tok = Ok st' ->
  operator_stack_sorted (fst st') /\
  Permutation
    (stack_tokens (snd st') ++ List.filter not_delimiter (fst st'))
    (List.filter not_delimiter [tok] ++
     stack_tokens (snd st) ++ List.filter not_delimiter (fst st)).
Proof.
  destruct st as [ops out]. intros Hwf Hops. cbn [fst snd] in *.
  unfold process_token. cbn [List.filter]. unfold not_delimiter at 2.
  destruct (SymbolType_eqb (type_ tok) DELIMITER) eqn:Hd; cbn [negb app].
  - destruct (symbol tok =? OPEN)%N eqn:Ho.
    + intros [= <-]. cbn [fst snd List.filter]. unfold not_delimiter at 1.
      rewrite Hd. cbn [negb]. split; [|reflexivity].
      constructor; [|exact Hops]. left. unfold is_open. now rewrite Hd, Ho.
    + destruct (symbol tok =? CLOSE)%N; [|now intros [= <-]].
      destruct (pop_while_run not_open ops out)
        as (popped & kept & -> & Hall & Hk & ->).
      destruct kept as [|k kept]; [discriminate|].
      intros [= <-]. cbn [fst snd].
      apply Forall_app in Hops as [Hp Hkept].
      inversion Hkept as [|? ? Hk1 Hkept']; subst.
      split; [exact Hkept'|].
      rewrite List.filter_app, (sorted_not_delimiter popped Hp Hall).
      cbn [List.filter].
      rewrite (sorted_open_is_delimiter k Hk1 (Hk k eq_refl)).
      rewrite reduce_run_tokens, <- !app_assoc.
      apply Permutation_app_swap_app.
  - destruct (SymbolType_eqb (type_ tok) OPERATOR) eqn:Hop.
    + match goal with |- context [pop_while ?c _] =>
        destruct (pop_while_run c ops out)
          as (popped & kept & -> & Hall & _ & ->)
      end.
      intros [= <-]. cbn [fst snd].
      apply Forall_app in Hops as [Hp Hkept].
      assert (Hall' : Forall (fun t => not_open t = true) popped).
      { eapply Forall_impl; [exact Hall|].
        cbn. now intros t [H _]%andb_true_iff. }
      apply SymbolType_eqb_eq in Hop.
      split.
      * constructor; [|exact Hkept]. right. split; [exact Hop | now apply Hwf].
      * rewrite List.filter_app, (sorted_not_delimiter popped Hp Hall').
        cbn [List.filter]. unfold not_delimiter at 1. rewrite Hd. cbn [negb].
        rewrite reduce_run_tokens.
        rewrite <- Permutation_middle. constructor.
        rewrite <- !app_assoc. apply Permutation_app_swap_app.
    + intros [= <-]. cbn [fst snd]. split; [exact Hops|].
      unfold stack_tokens. cbn [flat_map flatten_ast_tokens app].
      reflexivity.
Qed.

Lemma process_tokens_conserve :
  forall (tokens : list KSpkToken) (st st' : stacks),
    delimiters_typed tokens ->
    operator_stack_sorted (fst st) ->
    process_tokens st tokens = Ok st' ->
    operator_stack_sorted (fst st') /\
    Permutation
      (stack_tokens (snd st') ++ List.filter not_delimiter (fst st'))
      (List.filter not_delimiter tokens ++
       stack_tokens (snd st) ++ List.filter not_delimiter (fst st)).
Proof.
  induction tokens as [|tok tokens IH]; intros st st' Hwf Hops.
  - intros [= <-]. now split.
  - inversion Hwf as [|? ? Htok Hrest]; subst. cbn [process_tokens].
    destruct (process_token st tok) as [st1|e] eqn:Hstep; [|discriminate].
    intros Hrun.
    destruct (process_token_conserves _ _ _ Htok Hops Hstep) as [Hops1 Hp1].
    destruct (IH _ _ Hrest Hops1 Hrun) as [Hops' Hp'].
    split; [exact Hops'|]. rewrite Hp', Hp1.
    change (tok :: tokens) with ([tok] ++ tokens).
    rewrite List.filter_app, <- !app_assoc.
    apply Permutation_app_swap_app.
Qed.

Lemma build_conserves (tokens : list KSpkToken) (root : KSpkASTNode) :
  delimiters_typed tokens ->
  _build_expression_tree tokens = Ok root ->
  Permutation (flatten_ast_tokens root) (List.filter not_delimiter tokens).
Proof.
  intros Hwf. unfold _build_expression_tree.
  destruct (process_tokens ([], []) tokens) as [[ops out]|e] eqn:Hrun;
    [|discriminate].
  assert (Hinit : operator_stack_sorted []) by constructor.
  destruct (process_tokens_conserve tokens ([], []) _ Hwf Hinit Hrun)
    as [Hops Hperm].
  cbn [fst snd stack_tokens flat_map List.filter] in Hperm.
  rewrite !app_nil_r in Hperm.
  cbn [fst]. rewrite pop_remaining_spec.
  destruct (opens ops) eqn:Hopens; [|discriminate].
  pose proof (reduce_run_tokens ops out) as Hfold.
  destruct (fold_left _ ops out) as [|r [|r2 rest]]; try discriminate.
  intros [= <-]. unfold stack_tokens in Hfold at 1. cbn [flat_map] in Hfold.
  rewrite app_nil_r in Hfold. rewrite Hfold, <- Hperm.
  rewrite (sorted_not_delimiter ops Hops (opens_none ops Hopens)).
  apply Permutation_app_comm.
Qed.

(** X7. No token is lost, repeated or made up: for two tokens or more, typed
    as the tokenizer types them, the tokens of the tree are the tokens of
    the input without its delimiters, each one once. Delimiters never become
    nodes. *)
Theorem tree_holds_the_tokens (tokens : list KSpkToken) (root : KSpkASTNode) :
  delimiters_typed tokens ->
  2 <= length tokens ->
  parse_to_ast tokens = Ok root ->
  Permutation (flatten_ast_tokens root) (List.filter not_delimiter tokens) /\
  length (subnodes root) = length (List.filter not_delimiter tokens) /\
  forall n, In n (subnodes root) -> type_ (token n) <> DELIMITER.
Proof.
  intros Hwf Hlen Hparse.
  assert (Hperm : Permutation (flatten_ast_tokens root)
                              (List.filter not_delimiter tokens)).
  { destruct tokens as [|t1 [|t2 tokens]]; cbn in Hlen; try lia.
    cbn [parse_to_ast] in Hparse.
    destruct (_build_expression_tree (t1 :: t2 :: tokens)) as [r|e] eqn:Hb;
      [|discriminate].
    injection Hparse as <-. now apply build_conserves. }
  split; [exact Hperm|]. split.
  - rewrite <- (Permutation_length Hperm), flatten_subnodes.
    now rewrite length_map.
  - intros n Hn Hd.
    assert (Hin : In (token n) (List.filter not_delimiter tokens)).
    { eapply Permutation_in; [exact Hperm|].
      rewrite flatten_subnodes. now apply in_map. }
    apply List.filter_In in Hin as [_ Hnd].
    unfold not_delimiter in Hnd. now rewrite Hd in Hnd.
Qed.

(** ** Depth *)

Lemma operator_count_app a b :
  operator_count (a ++ b) = operator_count a + operator_count b.
Proof. unfold operator_count. now rewrite List.filter_app, length_app. Qed.

Lemma operator_count_cons tok l :
  operator_count (tok :: l) = operator_count [tok] + operator_count l.
Proof. apply (operator_count_app [tok] l). Qed.

Lemma operator_count_perm a b :
  Permutation a b -> operator_count a = operator_count b.
Proof.
  intros H. unfold operator_count.
  apply Permutation_length. now apply Permutation_List_filter.
Qed.

Lemma depth_children_bound (cs : list KSpkASTNode) :
  Forall (fun c => depth c <= operator_count (flatten_ast_tokens c)) cs ->
  list_max (List.map depth cs) <=
  operator_count (flat_map flatten_ast_tokens cs).
Proof.
  induction 1 as [|c cs Hc _ IH]; [cbn; lia|].
  cbn [List.map list_max fold_right flat_map].
  rewrite operator_count_app.
  change (fold_right Nat.max 0 (List.map depth cs))
    with (list_max (List.map depth cs)).
  lia.
Qed.

Lemma depth_bound :
  forall root,
    well_shaped root = true ->
    depth root <= operator_count (flatten_ast_tokens root).
Proof.
  induction root as [tok cs IH] using KSpkASTNode_ind.
  intros Hws. apply well_shaped_node in Hws as [Hshape Hcs].
  assert (Hall : Forall (fun c => depth c <=
                                  operator_count (flatten_ast_tokens c)) cs).
  { rewrite Forall_forall in IH, Hcs |- *. intros c Hc. auto. }
  pose proof (depth_children_bound cs Hall) as Hmax.
  destruct cs as [|c cs]; [cbn; lia|].
  destruct Hshape as [Hnil|[Hop _]]; [discriminate|].
  cbn [token] in Hop.
  change (depth (Node tok (c :: cs)))
    with (1 + list_max (List.map depth (c :: cs))).
  cbn [flatten_ast_tokens]. unfold operator_count at 1.
  cbn [List.filter]. unfold is_operator at 1. rewrite Hop.
  cbn [SymbolType_eqb length].
  fold (operator_count (flat_map flatten_ast_tokens (c :: cs))). lia.
Qed.

Lemma reduce_run_operators popped out :
  operator_count (stack_tokens (fold_left (fun o tok => attach tok o)
                                          popped out)) =
  operator_count popped + operator_count (stack_tokens out).
Proof.
  rewrite (operator_count_perm _ _ (reduce_run_tokens popped out)).
  apply operator_count_app.
Qed.

Lemma process_token_operators (st st' : stacks) (tok : KSpkToken) :
  process_token st tok = Ok st' ->
  operator_count (stack_tokens (snd st')) + operator_count (fst st') <=
  operator_count [tok] +
  (operator_count (stack_tokens (snd st)) + operator_count (fst st)).
Proof.
  destruct st as [ops out]. cbn [fst snd]. unfold process_token.
  assert (Hone : operator_count [tok] = if is_operator tok then 1 else 0).
  { unfold operator_count. cbn. now destruct (is_operator tok). }
  pose proof (operator_count_cons tok) as Hcons.
  destruct (SymbolType_eqb (type_ tok) DELIMITER) eqn:Hd.
  - destruct (symbol tok =? OPEN)%N.
    + intros [= <-]. cbn [fst snd]. rewrite Hcons. lia.
    + destruct (symbol tok =? CLOSE)%N; [|intros [= <-]; cbn [fst snd]; lia].
      destruct (pop_while_run not_open ops out)
        as (popped & kept & -> & _ & _ & ->).
      destruct kept as [|k kept]; [discriminate|].
      intros [= <-]. cbn [fst snd].
      rewrite reduce_run_operators, operator_count_app.
      rewrite (operator_count_cons k kept). lia.
  - destruct (SymbolType_eqb (type_ tok) OPERATOR) eqn:Hop.
    + match goal with |- context [pop_while ?c _] =>
        destruct (pop_while_run c ops out)
          as (popped & kept & -> & _ & _ & ->)
      end.
      intros [= <-]. cbn [fst snd].
      rewrite reduce_run_operators, operator_count_app, Hcons. lia.
    + intros [= <-]. cbn [fst snd]. unfold stack_tokens.
      cbn [flat_map flatten_ast_tokens app].
      fold (stack_tokens out). rewrite Hcons. lia.
Qed.

Lemma process_tokens_operators :
  forall (tokens : list KSpkToken) (st st' : stacks),
    process_tokens st tokens = Ok st' ->
    operator_count (stack_tokens (snd st')) + operator_count (fst st') <=
    operator_count tokens +
    (operator_count (stack_tokens (snd st)) + operator_count (fst st)).
Proof.
  induction tokens as [|tok tokens IH]; intros st st'.
  - intros [= <-]. cbn. lia.
  - cbn [process_tokens].
    destruct (process_token st tok) as [st1|e] eqn:Hstep; [|discriminate].
    intros Hrun. pose proof (process_token_operators _ _ _ Hstep).
    pose proof (IH _ _ Hrun).
    rewrite (operator_count_cons tok tokens). lia.
Qed.

(** X8. The depth of a tree is at most the number of operator tokens of the
    input: only operators have children, and each token is a node once at
    most. *)
Theorem depth_within_operators (tokens : list KSpkToken)
        (root : KSpkASTNode) :
  parse_to_ast tokens = Ok root ->
  depth root <= operator_count tokens /\
  (is_leaf root = true <-> depth root = 0).
Proof.
  intros Hparse. split.
  - pose proof (parse_to_ast_ok _ _ Hparse) as [Hws _].
    pose proof (depth_bound root Hws) as Hd.
    enough (operator_count (flatten_ast_tokens root) <= operator_count tokens)
      by lia.
    destruct tokens as [|t1 [|t2 tokens]]; cbn [parse_to_ast] in Hparse.
    + discriminate.
    + injection Hparse as <-. cbn. lia.
    + destruct (_build_expression_tree (t1 :: t2 :: tokens)) as [r|e] eqn:Hb;
        [|discriminate].
      injection Hparse as <-. revert Hb. unfold _build_expression_tree.
      destruct (process_tokens ([], []) (t1 :: t2 :: tokens))
        as [[ops out]|e] eqn:Hrun; [|discriminate].
      pose proof (process_tokens_operators _ _ _ Hrun) as Hcount.
      cbn [fst snd] in *. rewrite pop_remaining_spec.
      destruct (opens ops); [|discriminate].
      pose proof (reduce_run_operators ops out) as Hfold.
      destruct (fold_left _ ops out) as [|r' [|r2 rest]]; try discriminate.
      intros [= <-]. unfold stack_tokens in Hfold at 1.
      cbn [flat_map] in Hfold. rewrite app_nil_r in Hfold.
      change (operator_count (stack_tokens [])) with 0 in Hcount.
      change (operator_count []) with 0 in Hcount. lia.
  - destruct root as [tok [|c cs]]; cbn; split; congruence || lia || auto.
Qed.

(** ** The last line of the builder *)

Lemma build_depth_bound (tokens : list KSpkToken) (root : KSpkASTNode) :
  _build_expression_tree tokens = Ok root ->
  depth root <= operator_count tokens.
Proof.
  intros Hb. pose proof (build_ok _ _ Hb) as [Hws _].
  pose proof (depth_bound root Hws) as Hd.
  enough (operator_count (flatten_ast_tokens root) <= operator_count tokens)
    by lia.
  revert Hb. unfold _build_expression_tree.
  destruct (process_tokens ([], []) tokens) as [[ops out]|e] eqn:Hrun;
    [|discriminate].
  pose proof (process_tokens_operators _ _ _ Hrun) as Hcount.
  cbn [fst snd] in *. rewrite pop_remaining_spec.
  destruct (opens ops); [|discriminate].
  pose proof (reduce_run_operators ops out) as Hfold.
  destruct (fold_left _ ops out) as [|r' [|r2 rest]]; try discriminate.
  intros [= <-]. unfold stack_tokens in Hfold at 1.
  cbn [flat_map] in Hfold. rewrite app_nil_r in Hfold.
  change (operator_count (stack_tokens [])) with 0 in Hcount.
  change (operator_count []) with 0 in Hcount. lia.
Qed.

(** The debug line changes no result. A tree returned with it is the tree
    returned without it; a failure without it is the same failure with it;
    and a tree returned without it is returned with it as soon as [depth]
    can walk it. *)
Lemma parse_to_ast_bounded_ok max_depth recursion_text tokens root :
  parse_to_ast_bounded max_depth recursion_text tokens = Ok root ->
  parse_to_ast tokens = Ok root.
Proof.
  destruct tokens as [|t1 [|t2 tokens]];
    cbn [parse_to_ast parse_to_ast_bounded]; try (intros H; exact H).
  unfold _build_expression_tree_bounded.
  destruct (_build_expression_tree (t1 :: t2 :: tokens)) as [r|e];
    [|discriminate].
  destruct (depth_call max_depth r); [|discriminate]. intros H. exact H.
Qed.

Lemma parse_to_ast_bounded_raise max_depth recursion_text tokens e :
  parse_to_ast tokens = Raise e ->
  parse_to_ast_bounded max_depth recursion_text tokens = Raise e.
Proof.
  destruct tokens as [|t1 [|t2 tokens]];
    cbn [parse_to_ast parse_to_ast_bounded]; try (intros H; exact H).
  unfold _build_expression_tree_bounded.
  destruct (_build_expression_tree (t1 :: t2 :: tokens)) as [r|inner];
    [discriminate|].
  intros H. exact H.
Qed.

Lemma parse_to_ast_bounded_within max_depth recursion_text tokens root :
  parse_to_ast tokens = Ok root ->
  depth root <= max_depth ->
  parse_to_ast_bounded max_depth recursion_text tokens = Ok root.
Proof.
  destruct tokens as [|t1 [|t2 tokens]];
    cbn [parse_to_ast parse_to_ast_bounded]; try (intros H _; exact H).
  unfold _build_expression_tree_bounded, depth_call.
  destruct (_build_expression_tree (t1 :: t2 :: tokens)) as [r|inner];
    [|discriminate].
  intros [= ->] Hd. apply Nat.leb_le in Hd. now rewrite Hd.
Qed.

(** X11. A parse fails in five ways only: on no token at all; on a close
    delimiter of the input that finds no open one; on an open delimiter that
    is never closed; on a number of trees left that is not one; and, one
    tree being left, in the debug line of the builder, when that tree is
    deeper than [depth] can walk. The last four come from the builder, on
    two tokens or more, and are raised again under the text "Failed to build
    AST: ". The tree is never deeper than the input has operators, so the
    fifth needs more operators than [depth] can walk. *)
Theorem parse_failures (max_depth : nat) (recursion_text : str)
        (tokens : list KSpkToken) (e : ParseError) :
  parse_to_ast_bounded max_depth recursion_text tokens = Raise e ->
  (tokens = [] /\ e = empty_input) \/
  (2 <= length tokens /\
   ((exists inner,
       _build_expression_tree tokens = Raise inner /\
       e = reraised inner /\
       ((exists tok, In tok tokens /\ is_close tok = true /\
                     inner = mismatched_closing tok) \/
        inner = mismatched_opening \/
        (exists n, n <> 1 /\ inner = malformed n))) \/
    (exists root,
       _build_expression_tree tokens = Ok root /\
       max_depth < depth root /\
       depth root <= operator_count tokens /\
       e = recursion_failure recursion_text))).
Proof.
  destruct tokens as [|t1 [|t2 tokens]]; cbn [parse_to_ast_bounded].
  - intros [= <-]. now left.
  - discriminate.
  - unfold _build_expression_tree_bounded, depth_call.
    destruct (_build_expression_tree (t1 :: t2 :: tokens)) as [r|inner] eqn:Hb.
    + destruct (depth r <=? max_depth) eqn:Hd; [discriminate|].
      intros [= <-]. right. split; [cbn; lia|]. right.
      exists r. apply Nat.leb_gt in Hd.
      repeat split; [exact Hd | now apply build_depth_bound].
    + intros [= <-]. right. split; [cbn; lia|]. left.
      exists inner. repeat split. now apply build_raises.
Qed.

Lemma chain_depth :
  forall root, chain root = true -> S (depth root) = length (subnodes root).
Proof.
  induction root as [tok cs IH] using KSpkASTNode_ind.
  cbn [chain]. intros [Hlen Hcs]%andb_true_iff.
  destruct cs as [|c [|c2 cs]]; [reflexivity| |cbn in Hlen; discriminate].
  inversion IH as [|? ? Hc _]; subst.
  cbn [forallb] in Hcs. apply andb_true_iff in Hcs as [Hcc _].
  specialize (Hc Hcc).
  change (depth (Node tok [c])) with (1 + list_max [depth c]).
  cbn [list_max fold_right subnodes flat_map].
  rewrite app_nil_r. cbn [length]. rewrite <- Hc. lia.
Qed.

Lemma operators_alone_build (tokens : list KSpkToken) :
  tokens <> [] ->
  Forall plain_operator tokens ->
  exists root,
    _build_expression_tree tokens = Ok root /\
    chain root = true /\
    length (subnodes root) = length tokens.
Proof.
  intros Hne Hall.
  destruct (process_plain_operators tokens ([], []) Hall)
    as ([ops out] & Hrun & Hops & Hout & Hnil & Hn);
    [constructor | now left |].
  cbn [fst snd] in *. specialize (Hnil Hne).
  destruct (reduce_run_chain ops out Hops Hout) as (Hc & Hone & Hsize).
  destruct (Hone Hnil) as (root & Hroot).
  exists root. unfold _build_expression_tree.
  rewrite Hrun. cbn [fst]. rewrite pop_remaining_spec.
  rewrite opens_not_open, Hroot.
  2:{ eapply Forall_impl; [exact Hops|]. apply plain_operator_not_open. }
  split; [reflexivity|].
  rewrite Hroot in Hc, Hsize. cbn [flat_map] in Hsize.
  rewrite app_nil_r in Hsize. split; [|cbn [flat_map length] in Hn |- *; lia].
  destruct Hc as [Hc|(r & [= <-] & Hc)]; [discriminate | exact Hc].
Qed.

(** X14. Operators alone. Having no operand to take, the first one reduced
    becomes a node without children and each later one takes the node before
    it as its only child: the builder is left with one tree, a chain that
    holds every operator of the input and is as deep as they are many, less
    one. The parse returns that chain when [depth] can walk it, and fails
    in the debug line of the builder when it cannot. *)
Theorem operators_alone_make_a_chain (max_depth : nat) (recursion_text : str)
        (tokens : list KSpkToken) :
  tokens <> [] ->
  Forall plain_operator tokens ->
  exists root,
    _build_expression_tree tokens = Ok root /\
    (forall n, In n (subnodes root) -> length (children n) <= 1) /\
    length (subnodes root) = length tokens /\
    S (depth root) = length tokens /\
    (length tokens <= S max_depth ->
     parse_to_ast_bounded max_depth recursion_text tokens = Ok root) /\
    (S max_depth < length tokens ->
     parse_to_ast_bounded max_depth recursion_text tokens =
     Raise (recursion_failure recursion_text)).
Proof.
  intros Hne Hall.
  destruct (operators_alone_build tokens Hne Hall) as (root & Hb & Hc & Hn).
  pose proof (chain_depth root Hc) as Hd.
  exists root. split; [exact Hb|].
  split; [now apply chain_subnodes|]. split; [exact Hn|].
  split; [lia|].
  destruct tokens as [|t1 [|t2 tokens]]; [congruence| |].
  - split; [|cbn; lia]. intros _. cbn [parse_to_ast_bounded].
    destruct root as [tok [|c cs]].
    + revert Hb. unfold _build_expression_tree.
      inversion Hall as [|? ? [Hop Hopen] _]; subst.
      cbn [process_tokens]. rewrite (process_token_operator _ t1 Hop).
      cbn [pop_while while_pop length fst snd].
      change 1 with (length [t1]).
      rewrite pop_remaining_spec, opens_not_open.
      2:{ repeat constructor. unfold not_open.
          apply N.eqb_neq in Hopen. now rewrite Hopen. }
      cbn [fold_left]. rewrite attach_operator_nil by exact Hop.
      now intros [= ->].
    + destruct c as [tc ccs]. cbn [subnodes flat_map length app] in Hn.
      lia.
  - cbn [parse_to_ast_bounded].
    unfold _build_expression_tree_bounded, depth_call. rewrite Hb.
    split; intros Hlen.
    + assert (Hle : (depth root <=? max_depth) = true)
        by (apply Nat.leb_le; lia).
      now rewrite Hle.
    + assert (Hgt : (depth root <=? max_depth) = false)
        by (apply Nat.leb_gt; lia).
      now rewrite Hgt.
Qed.

(** ** The validator after the parser *)

Lemma reduce_run_from (P : KSpkToken -> Prop) popped out :
  Forall P popped -> Forall P (stack_tokens out) ->
  Forall P (stack_tokens (fold_left (fun o tok => attach tok o) popped out)).
Proof.
  intros Hp Hout.
  eapply Permutation_Forall;
    [symmetry; apply reduce_run_tokens | now apply Forall_app].
Qed.

Lemma process_token_from (P : KSpkToken -> Prop) (st st' : stacks) tok :
  P tok ->
  Forall P (fst st) -> Forall P (stack_tokens (snd st)) ->
  process_token st tok = Ok st' ->
  Forall P (fst st') /\ Forall P (stack_tokens (snd st')).
Proof.
  destruct st as [ops out]. cbn [fst snd]. intros Htok Hops Hout.
  unfold process_token.
  destruct (SymbolType_eqb (type_ tok) DELIMITER).
  - destruct (symbol tok =? OPEN)%N.
    + intros [= <-]. cbn [fst snd]. split; [now constructor | exact Hout].
    + destruct (symbol tok =? CLOSE)%N; [|now intros [= <-]].
      destruct (pop_while_run not_open ops out)
        as (popped & kept & -> & _ & _ & ->).
      destruct kept as [|k kept]; [discriminate|].
      intros [= <-]. cbn [fst snd].
      apply Forall_app in Hops as [Hp Hk]. inversion Hk; subst.
      split; [assumption | now apply reduce_run_from].
  - destruct (SymbolType_eqb (type_ tok) OPERATOR).
    + match goal with |- context [pop_while ?c _] =>
        destruct (pop_while_run c ops out)
          as (popped & kept & -> & _ & _ & ->)
      end.
      intros [= <-]. cbn [fst snd].
      apply Forall_app in Hops as [Hp Hk].
      split; [now constructor | now apply reduce_run_from].
    + intros [= <-]. cbn [fst snd]. split; [exact Hops|].
      unfold stack_tokens. cbn [flat_map flatten_ast_tokens app].
      now constructor.
Qed.

Lemma process_tokens_from (P : KSpkToken -> Prop) :
  forall (tokens : list KSpkToken) (st st' : stacks),
    Forall P tokens ->
    Forall P (fst st) -> Forall P (stack_tokens (snd st)) ->
    process_tokens st tokens = Ok st' ->
    Forall P (fst st') /\ Forall P (stack_tokens (snd st')).
Proof.
  induction tokens as [|tok tokens IH]; intros st st' Hall Hops Hout.
  - now intros [= <-].
  - inversion Hall as [|? ? Htok Hrest]; subst. cbn [process_tokens].
    destruct (process_token st tok) as [st1|e] eqn:Hstep; [|discriminate].
    destruct (process_token_from P _ _ _ Htok Hops Hout Hstep) as [H1 H2].
    now apply IH.
Qed.

(** The tokens of a tree are tokens of the input. *)
Lemma parse_tokens_from (P : KSpkToken -> Prop) tokens root :
  Forall P tokens ->
  parse_to_ast tokens = Ok root ->
  Forall P (flatten_ast_tokens root).
Proof.
  intros Hall.
  destruct tokens as [|t1 [|t2 tokens]]; cbn [parse_to_ast].
  - discriminate.
  - intros [= <-]. exact Hall.
  - unfold _build_expression_tree.
    destruct (process_tokens ([], []) (t1 :: t2 :: tokens))
      as [[ops out]|e] eqn:Hrun; [|discriminate].
    assert (Hnil1 : Forall P (fst (@nil KSpkToken, @nil KSpkASTNode)))
      by constructor.
    assert (Hnil2 : Forall P (stack_tokens
                                (snd (@nil KSpkToken, @nil KSpkASTNode))))
      by constructor.
    destruct (process_tokens_from P _ _ _ Hall Hnil1 Hnil2 Hrun)
      as [Hops Hout].
    cbn [fst snd] in *. rewrite pop_remaining_spec.
    destruct (opens ops); [|discriminate].
    pose proof (reduce_run_from P ops out Hops Hout) as Hfold.
    destruct (fold_left _ ops out) as [|r [|r2 rest]]; try discriminate.
    intros [= <-]. unfold stack_tokens in Hfold. cbn [flat_map] in Hfold.
    now rewrite app_nil_r in Hfold.
Qed.

Lemma flagged_operands (f : KSpkToken -> bool) :
  forall root,
    Forall (fun tok => is_operand tok = false -> f tok = false)
           (flatten_ast_tokens root) ->
    List.filter f (flatten_ast_tokens root) =
    List.filter f (operand_leaves root).
Proof.
  induction root as [tok cs IH] using KSpkASTNode_ind.
  cbn [flatten_ast_tokens operand_leaves]. intros Hall.
  inversion Hall as [|? ? Htok Hrest]; subst.
  assert (Hcs : List.filter f (flat_map flatten_ast_tokens cs) =
                List.filter f (flat_map operand_leaves cs)).
  { clear Htok Hall. induction IH as [|c cs Hc _ IHcs]; [reflexivity|].
    cbn [flat_map] in *. apply Forall_app in Hrest as [H1 H2].
    now rewrite !List.filter_app, Hc, IHcs. }
  rewrite List.filter_app, <- Hcs. cbn [List.filter].
  destruct (is_operand tok) eqn:Hop.
  - cbn [List.filter app]. now destruct (f tok).
  - rewrite (Htok eq_refl). reflexivity.
Qed.

Lemma filter_filter_implied (f g : KSpkToken -> bool) tokens :
  Forall (fun tok => g tok = false -> f tok = false) tokens ->
  List.filter f (List.filter g tokens) = List.filter f tokens.
Proof.
  induction 1 as [|t l Ht _ IH]; [reflexivity|].
  cbn [List.filter]. destruct (g t) eqn:Hg.
  - cbn [List.filter]. now rewrite IH.
  - now rewrite (Ht eq_refl), IH.
Qed.

(** Issues in source order: when only operands can be flagged, the issues
    of a tree are those of the flagged tokens of the input, in order. *)
Lemma validate_in_source_order (heap : Heap) tokens root :
  parse_to_ast tokens = Ok root ->
  Forall (fun tok => is_operand tok = false -> flagged heap tok = false)
         tokens ->
  validate_ast heap root =
  List.map (fun tok => issue (symbol tok))
           (List.filter (flagged heap) tokens).
Proof.
  intros Hparse Hall.
  rewrite validate_ast_spec.
  transitivity (List.map (fun tok => issue (symbol tok))
                  (List.filter (flagged heap) (flatten_ast_tokens root))).
  { rewrite flatten_subnodes.
    induction (subnodes root) as [|n l IH]; [reflexivity|].
    cbn [List.map List.filter].
    destruct (flagged heap (token n)); cbn [List.map]; now rewrite IH. }
  f_equal.
  rewrite flagged_operands
    by (eapply parse_tokens_from; [exact Hall | exact Hparse]).
  destruct (parse_to_ast_ok _ _ Hparse) as [_ ->].
  now apply filter_filter_implied.
Qed.

Section ValidateAfterParse.

Variable isspace : char -> bool.
Variable lower : str -> str.
Variable rosetta : gmap char loc.
Variable heap : Heap.

Hypothesis no_error_mark :
  forall l, truthy (default (PBool false) (d_error (heap l))) = false.

Lemma emitted_flagged c pos :
  flagged heap (emitted lower rosetta heap c pos) =
  is_unknown lower rosetta heap c.
Proof.
  unfold emitted, is_unknown, _create_token.
  destruct (delimiters c); [reflexivity|].
  destruct (bool_decide (c ∈ operators)); [reflexivity|].
  destruct (rosetta !! c) as [l|]; [|reflexivity].
  unfold flagged. cbn. apply no_error_mark.
Qed.

Lemma emitted_unknown_operand c pos :
  is_operand (emitted lower rosetta heap c pos) = false ->
  is_unknown lower rosetta heap c = false.
Proof.
  unfold emitted, is_unknown, _create_token.
  destruct (delimiters c); [reflexivity|].
  destruct (bool_decide (c ∈ operators)); [reflexivity|].
  destruct (rosetta !! c) as [l|]; [reflexivity|].
  cbn. discriminate.
Qed.

Lemma tokenize_from_flagged s :
  forall pos,
    List.map (fun tok => issue (symbol tok))
      (List.filter (flagged heap)
                   (tokenize_from isspace lower rosetta heap pos s)) =
    List.map issue
      (List.filter (fun c => negb (isspace c) &&
                             is_unknown lower rosetta heap c) s) /\
    Forall (fun tok => is_operand tok = false -> flagged heap tok = false)
           (tokenize_from isspace lower rosetta heap pos s).
Proof.
  induction s as [|c s IH]; intros pos; [split; [reflexivity|constructor]|].
  destruct (IH (pos + 1)%Z) as [IH1 IH2].
  destruct (isspace c) eqn:Hc.
  - cbn [tokenize_from List.filter]. rewrite Hc. cbn [negb andb].
    now split.
  - rewrite tokenize_from_cons by exact Hc.
    cbn [List.filter]. rewrite Hc, emitted_flagged. cbn [negb andb]. split.
    + destruct (is_unknown lower rosetta heap c); cbn [List.map];
        now rewrite ?emitted_symbol, IH1.
    + constructor; [|exact IH2]. rewrite emitted_flagged.
      apply emitted_unknown_operand.
Qed.

(** X9. With a table whose entries carry no error mark, the validator
    reports the unknown symbols of the text and nothing else: after a parse
    that succeeds, its issues are one per unknown character that is not
    whitespace, in the order of the text. *)
Theorem issues_are_the_unknown_symbols (s : str) (root : KSpkASTNode) :
  parse_k_spk_expression isspace lower rosetta heap s = Ok root ->
  validate_ast heap root =
  List.map issue
    (List.filter (fun c => negb (isspace c) &&
                           is_unknown lower rosetta heap c) s).
Proof.
  unfold parse_k_spk_expression. rewrite tokenize_loop. intros Hparse.
  destruct (tokenize_from_flagged s 0) as [Hmap Hall].
  rewrite <- Hmap. now apply validate_in_source_order.
Qed.

End ValidateAfterParse.

(** ** What the builder reads *)

Section Relabel.

Variable f : KSpkToken -> KSpkToken.
Hypothesis f_keeps : keeps_shape f.

Lemma attach_relabel tok out :
  attach (f tok) (List.map (map_node f) out) =
  List.map (map_node f) (attach tok out).
Proof.
  unfold attach, _pop_operator_to_output. cbn [snd].
  destruct (f_keeps tok) as (_ & -> & _).
  destruct (SymbolType_eqb (type_ tok) OPERATOR);
    [destruct out as [|r [|l out]]|]; reflexivity.
Qed.

Lemma pop_while_relabel (c1 c2 : KSpkToken -> bool) :
  (forall tok, c2 (f tok) = c1 tok) ->
  forall ops out,
    pop_while c2 (List.map f ops, List.map (map_node f) out) =
    (List.map f (fst (pop_while c1 (ops, out))),
     List.map (map_node f) (snd (pop_while c1 (ops, out)))).
Proof.
  intros Hc. induction ops as [|t ops IH]; intros out; [reflexivity|].
  cbn [List.map]. rewrite !pop_while_cons, Hc.
  destruct (c1 t); [|reflexivity].
  rewrite attach_relabel. apply IH.
Qed.

Lemma not_open_relabel tok : not_open (f tok) = not_open tok.
Proof. unfold not_open. now destruct (f_keeps tok) as (-> & _). Qed.

Lemma process_token_relabel ops out tok :
  process_token (List.map f ops, List.map (map_node f) out) (f tok) =
  match process_token (ops, out) tok with
  | Ok (ops', out') => Ok (List.map f ops', List.map (map_node f) out')
  | Raise _ => Raise (mismatched_closing (f tok))
  end.
Proof.
  unfold process_token.
  destruct (f_keeps tok) as (Hs & Ht & Hp). rewrite Hs, Ht, Hp.
  destruct (SymbolType_eqb (type_ tok) DELIMITER).
  - destruct (symbol tok =? OPEN)%N; [reflexivity|].
    destruct (symbol tok =? CLOSE)%N; [|reflexivity].
    rewrite (pop_while_relabel not_open not_open not_open_relabel).
    destruct (pop_while not_open (ops, out)) as [[|k kept] out'];
      cbn [fst snd List.map]; [|reflexivity].
    unfold mismatched_closing. now rewrite Hs.
  - destruct (SymbolType_eqb (type_ tok) OPERATOR); [|reflexivity].
    match goal with |- context [pop_while ?c (ops, out)] =>
      rewrite (pop_while_relabel c c)
    end.
    + now destruct (pop_while _ (ops, out)).
    + intros t. rewrite not_open_relabel.
      now destruct (f_keeps t) as (_ & _ & ->).
Qed.

Lemma process_tokens_relabel :
  forall tokens ops out,
    match process_tokens (ops, out) tokens with
    | Ok (ops', out') =>
        process_tokens (List.map f ops, List.map (map_node f) out)
                       (List.map f tokens) =
        Ok (List.map f ops', List.map (map_node f) out')
    | Raise e =>
        exists e',
          process_tokens (List.map f ops, List.map (map_node f) out)
                         (List.map f tokens) = Raise e' /\
          err_message e' = err_message e
    end.
Proof.
  induction tokens as [|tok tokens IH]; intros ops out; [reflexivity|].
  cbn [process_tokens List.map]. rewrite process_token_relabel.
  destruct (process_token (ops, out) tok) as [[ops1 out1]|e] eqn:Hstep.
  - apply IH.
  - apply process_token_raises in Hstep as [_ ->]. eexists. now split.
Qed.

Lemma opens_relabel ops : opens (List.map f ops) = opens ops.
Proof.
  induction ops as [|t ops IH]; [reflexivity|].
  cbn [List.map]. rewrite !opens_cons, IH.
  now destruct (f_keeps t) as (-> & _).
Qed.

Lemma reduce_run_relabel popped :
  forall out,
    fold_left (fun o tok => attach tok o) (List.map f popped)
              (List.map (map_node f) out) =
    List.map (map_node f) (fold_left (fun o tok => attach tok o) popped out).
Proof.
  induction popped as [|t popped IH]; intros out; [reflexivity|].
  cbn [List.map fold_left]. rewrite attach_relabel. apply IH.
Qed.

Lemma build_relabel tokens :
  match _build_expression_tree tokens with
  | Ok root =>
      _build_expression_tree (List.map f tokens) = Ok (map_node f root)
  | Raise e =>
      exists e', _build_expression_tree (List.map f tokens) = Raise e' /\
                 err_message e' = err_message e
  end.
Proof.
  unfold _build_expression_tree.
  pose proof (process_tokens_relabel tokens [] []) as Hrun.
  cbn [List.map] in Hrun.
  destruct (process_tokens ([], []) tokens) as [[ops out]|e].
  - rewrite Hrun. cbn [fst]. rewrite !pop_remaining_spec, opens_relabel.
    destruct (opens ops); [|eexists; now split].
    rewrite reduce_run_relabel.
    destruct (fold_left _ ops out) as [|r [|r2 rest]]; cbn [List.map].
    + eexists. now split.
    + reflexivity.
    + eexists. split; [reflexivity|]. cbn [err_message length].
      now rewrite length_map.
  - destruct Hrun as (e' & -> & He). eexists. now split.
Qed.

Lemma parse_relabel tokens :
  match parse_to_ast tokens with
  | Ok root => parse_to_ast (List.map f tokens) = Ok (map_node f root)
  | Raise e => exists e', parse_to_ast (List.map f tokens) = Raise e'
  end.
Proof.
  destruct tokens as [|t1 [|t2 tokens]]; cbn [parse_to_ast List.map].
  - eauto.
  - reflexivity.
  - pose proof (build_relabel (t1 :: t2 :: tokens)) as Hb.
    cbn [List.map] in Hb.
    destruct (_build_expression_tree (t1 :: t2 :: tokens)) as [r|e].
    + now rewrite Hb.
    + destruct Hb as (e' & -> & _). eauto.
Qed.

End Relabel.

(** X3. The builder reads the symbol, the type and the precedence of a
    token and nothing else: when every token is replaced by one with the
    same three, the parse succeeds or fails as before, and a tree that is
    built is the former tree with its tokens replaced. *)
Theorem tree_depends_on_shape_only (f : KSpkToken -> KSpkToken)
        (tokens : list KSpkToken) :
  keeps_shape f ->
  (forall root,
      parse_to_ast tokens = Ok root ->
      parse_to_ast (List.map f tokens) = Ok (map_node f root)) /\
  (forall e,
      parse_to_ast tokens = Raise e ->
      exists e', parse_to_ast (List.map f tokens) = Raise e').
Proof.
  intros Hf. pose proof (parse_relabel f Hf tokens) as H.
  split.
  - intros root Hp. now rewrite Hp in H.
  - intros e Hp. now rewrite Hp in H.
Qed.

Lemma erase_position_keeps : keeps_shape erase_position.
Proof. intros tok. now repeat split. Qed.

(** X17. Whitespace only matters for the positions: a text and the same
    text without its whitespace parse to the same tree, positions apart,
    and one fails when the other does. *)
Theorem whitespace_is_insignificant
        (isspace : char -> bool) (lower : str -> str)
        (rosetta : gmap char loc) (heap : Heap) (s : str) :
  let visible := List.filter (fun c => negb (isspace c)) s in
  (forall root,
      parse_k_spk_expression isspace lower rosetta heap s = Ok root ->
      exists root',
        parse_k_spk_expression isspace lower rosetta heap visible =
          Ok root' /\
        map_node erase_position root' = map_node erase_position root) /\
  (forall e,
      parse_k_spk_expression isspace lower rosetta heap s = Raise e ->
      exists e',
        parse_k_spk_expression isspace lower rosetta heap visible = Raise e').
Proof.
  cbv zeta. unfold parse_k_spk_expression. rewrite !tokenize_loop.
  set (ts := tokenize_from isspace lower rosetta heap 0 s).
  set (ts' := tokenize_from isspace lower rosetta heap 0
                (List.filter (fun c => negb (isspace c)) s)).
  assert (Heq : List.map erase_position ts = List.map erase_position ts')
    by apply tokenize_from_erase.
  pose proof (parse_relabel erase_position erase_position_keeps ts) as H.
  pose proof (parse_relabel erase_position erase_position_keeps ts') as H'.
  rewrite Heq in H.
  split.
  - intros root Hp. rewrite Hp in H.
    destruct (parse_to_ast ts') as [root'|e'].
    + exists root'. split; [reflexivity|]. congruence.
    + destruct H' as (e'' & He). congruence.
  - intros e Hp. rewrite Hp in H. destruct H as (e1 & He1).
    destruct (parse_to_ast ts') as [root'|e'].
    + congruence.
    + eauto.
Qed.

(** ** The rendering *)

Lemma newlines_app a b : newlines (a ++ b) = newlines a + newlines b.
Proof. unfold newlines. now rewrite List.filter_app, length_app. Qed.

Lemma newlines_uint d : newlines (py (NilEmpty.string_of_uint d)) = 0.
Proof. induction d; cbn; try exact IHd; reflexivity. Qed.

Lemma newlines_str_of_Z z : newlines (str_of_Z z) = 0.
Proof.
  unfold str_of_Z, NilZero.string_of_int, NilZero.string_of_uint.
  destruct (Z.to_int z) as [d|d]; destruct d; cbn;
    try apply newlines_uint; reflexivity.
Qed.

Lemma newlines_indent k : newlines (List.concat (repeat (py "  ") k)) = 0.
Proof. induction k as [|k IH]; [reflexivity|]. cbn. exact IH. Qed.

Lemma newlines_repr tok :
  symbol tok <> 10%N -> newlines (KSpkToken_repr tok) = 0.
Proof.
  intros Hs. unfold KSpkToken_repr. rewrite !newlines_app, newlines_str_of_Z.
  assert (Ht : newlines (type_value (type_ tok)) = 0)
    by (destruct (type_ tok); reflexivity).
  rewrite Ht. unfold newlines at 2. cbn [List.filter].
  destruct (10 =? symbol tok)%N eqn:E; [|reflexivity].
  apply N.eqb_eq in E. congruence.
Qed.

Lemma newlines_line indent tok :
  symbol tok <> 10%N -> newlines (debug_line indent tok) = 1.
Proof.
  intros Hs. unfold debug_line.
  now rewrite !newlines_app, newlines_indent, newlines_repr.
Qed.

Lemma newlines_lines (lines : list (Z * KSpkToken)) :
  Forall (fun line => symbol (snd line) <> 10%N) lines ->
  newlines (flat_map (fun line => debug_line (fst line) (snd line)) lines) =
  length lines.
Proof.
  induction 1 as [|line l Hline _ IH]; [reflexivity|].
  cbn [flat_map length]. rewrite newlines_app, newlines_line by exact Hline.
  now rewrite IH.
Qed.

Lemma debug_ast_lines :
  forall root indent,
    debug_ast root indent =
    flat_map (fun line => debug_line (fst line) (snd line))
             (nodes_at root indent).
Proof.
  induction root as [tok cs IH] using KSpkASTNode_ind. intros indent.
  cbn [debug_ast nodes_at flat_map fst snd]. unfold debug_line at 1.
  f_equal.
  induction IH as [|c cs Hc _ IHcs]; [reflexivity|].
  cbn [flat_map]. now rewrite flat_map_app, Hc, IHcs.
Qed.

Lemma nodes_at_tokens :
  forall root indent,
    List.map snd (nodes_at root indent) = flatten_ast_tokens root.
Proof.
  induction root as [tok cs IH] using KSpkASTNode_ind. intros indent.
  cbn [nodes_at flatten_ast_tokens List.map snd]. f_equal.
  induction IH as [|c cs Hc _ IHcs]; [reflexivity|].
  cbn [flat_map]. now rewrite List.map_app, Hc, IHcs.
Qed.

Lemma children_at_depth (cs : list KSpkASTNode) (bound : nat) (indent : Z) :
  Forall (fun c => forall i,
              Forall (fun line => (i <= fst line <=
                                   i + Z.of_nat (depth c))%Z)
                     (nodes_at c i)) cs ->
  Forall (fun c => depth c <= bound) cs ->
  Forall (fun line => (indent + 1 <= fst line <=
                       indent + 1 + Z.of_nat bound)%Z)
         (flat_map (fun c => nodes_at c (indent + 1)) cs).
Proof.
  induction 1 as [|c cs Hc _ IH]; intros Hb; [constructor|].
  inversion Hb as [|? ? Hd Hrest]; subst. cbn [flat_map].
  apply Forall_app. split; [|now apply IH].
  eapply Forall_impl; [apply (Hc (indent + 1)%Z)|].
  cbn. intros line Hl. lia.
Qed.

Lemma nodes_at_depth :
  forall root indent,
    Forall (fun line => (indent <= fst line <=
                         indent + Z.of_nat (depth root))%Z)
           (nodes_at root indent).
Proof.
  induction root as [tok cs IH] using KSpkASTNode_ind. intros indent.
  cbn [nodes_at]. constructor; [cbn [fst]; lia|].
  destruct cs as [|c0 cs0]; [constructor|].
  change (depth (Node tok (c0 :: cs0)))
    with (1 + list_max (List.map depth (c0 :: cs0))).
  set (cs := c0 :: cs0) in *.
  assert (Hmax : Forall (fun c => depth c <= list_max (List.map depth cs)) cs).
  { assert (H := proj1 (list_max_le (List.map depth cs)
                                    (list_max (List.map depth cs)))
                       (Nat.le_refl _)).
    rewrite Forall_forall. intros c Hc.
    rewrite List.Forall_forall in H. apply H. apply in_map.
    now apply list_elem_of_In. }
  eapply Forall_impl; [exact (children_at_depth cs _ indent IH Hmax)|].
  cbn. intros line Hl. lia.
Qed.

(** X10. The rendering holds one line for each node of the tree, a node
    before its children: the line of a node is its token after two spaces
    for each level of depth, no line is deeper than the depth of the tree,
    and, no symbol being a line end, the text has as many line ends as the
    tree has nodes. *)
Theorem rendering_is_one_line_per_node (root : KSpkASTNode) (indent : Z) :
  (forall n, In n (subnodes root) -> symbol (token n) <> 10%N) ->
  debug_ast root indent =
    flat_map (fun line => debug_line (fst line) (snd line))
             (nodes_at root indent) /\
  List.map snd (nodes_at root indent) = flatten_ast_tokens root /\
  Forall (fun line => (indent <= fst line <=
                       indent + Z.of_nat (depth root))%Z)
         (nodes_at root indent) /\
  newlines (debug_ast root indent) = length (subnodes root).
Proof.
  intros Hsym. split; [apply debug_ast_lines|].
  split; [apply nodes_at_tokens|]. split; [apply nodes_at_depth|].
  rewrite debug_ast_lines.
  assert (Hlen : length (subnodes root) = length (nodes_at root indent)).
  { rewrite <- (length_map token), <- flatten_subnodes,
            <- (nodes_at_tokens root indent).
    now rewrite length_map. }
  rewrite Hlen.
  assert (Hall : Forall (fun line => symbol (snd line) <> 10%N)
                        (nodes_at root indent)).
  { rewrite Forall_forall. intros line Hl. apply list_elem_of_In in Hl.
    apply (in_map snd) in Hl. rewrite nodes_at_tokens, flatten_subnodes in Hl.
    apply in_map_iff in Hl as (n & <- & Hn). now apply Hsym. }
  now apply newlines_lines.
Qed.

(** ** The further properties at concrete inputs *)

Lemma tree_depends_on_shape_only_witness :
  keeps_shape erase_position /\
  exists root,
    parse_to_ast (test_tokenize [ARROW; OPLUS; HOURGLASS]) = Ok root /\
    parse_to_ast (List.map erase_position
                    (test_tokenize [ARROW; OPLUS; HOURGLASS])) =
    Ok (map_node erase_position root).
Proof.
  assert (Hk : keeps_shape erase_position)
    by (intros tok; repeat split; reflexivity).
  split; [exact Hk|].
  eexists. split; [vm_compute; reflexivity|].
  apply (proj1 (tree_depends_on_shape_only erase_position
                  (test_tokenize [ARROW; OPLUS; HOURGLASS]) Hk)).
  vm_compute. reflexivity.
Defined.

Lemma builtin_symbols_ignore_the_table_witness :
  (delimiters OPLUS <> None \/ OPLUS ∈ operators) /\
  emitted ascii_lower TEST_ROSETTA MARKED_HEAP OPLUS 0 =
  emitted ascii_lower ∅ TEST_HEAP OPLUS 0.
Proof.
  assert (H : delimiters OPLUS <> None \/ OPLUS ∈ operators)
    by (right; apply operators_spec; now left).
  split; [exact H|].
  exact (proj1 (builtin_symbols_ignore_the_table
                  ascii_lower ascii_lower TEST_ROSETTA ∅ MARKED_HEAP TEST_HEAP
                  OPLUS 0 H)).
Defined.

Lemma precedence_follows_type_witness :
  (forall l, TEST_ROSETTA !! HOURGLASS = Some l ->
             d_precedence (TEST_HEAP l) = None) /\
  precedence (emitted ascii_lower TEST_ROSETTA TEST_HEAP HOURGLASS 0) =
    precedence_rules temporal.
Proof.
  assert (H : forall l, TEST_ROSETTA !! HOURGLASS = Some l ->
                        d_precedence (TEST_HEAP l) = None).
  { intros l Hl. vm_compute in Hl. injection Hl as <-. reflexivity. }
  split; [exact H|].
  exact (proj1 (precedence_follows_type ascii_lower TEST_ROSETTA TEST_HEAP
                  HOURGLASS 0 H)).
Defined.

Lemma classification_by_keyword_witness :
  d_category (entry "x" "Temporal-Operator") =
    Some ([] ++ py "Temporal" ++ py "-Operator") /\
  _classify_symbol ascii_lower (entry "x" "Temporal-Operator") = TEMPORAL.
Proof.
  split; [reflexivity|].
  apply (proj1 (classification_by_keyword (entry "x" "Temporal-Operator")
                  [] (py "Temporal") (py "-Operator") eq_refl)).
  left. reflexivity.
Defined.

Lemma group_typed :
  delimiters_typed (test_tokenize [OPEN; OPLUS; HOURGLASS; CLOSE]).
Proof.
  vm_compute. repeat constructor; cbn; intros H; discriminate.
Defined.

Lemma tree_holds_the_tokens_witness :
  delimiters_typed (test_tokenize [OPEN; OPLUS; HOURGLASS; CLOSE]) /\
  2 <= length (test_tokenize [OPEN; OPLUS; HOURGLASS; CLOSE]) /\
  exists root,
    parse_to_ast (test_tokenize [OPEN; OPLUS; HOURGLASS; CLOSE]) = Ok root /\
    length (subnodes root) = 2.
Proof.
  split; [exact group_typed|]. split; [vm_compute; lia|].
  eexists. split; [vm_compute; reflexivity|].
  refine (eq_trans (proj1 (proj2 (tree_holds_the_tokens
            (test_tokenize [OPEN; OPLUS; HOURGLASS; CLOSE]) _
            group_typed _ _))) _);
    [vm_compute; lia | vm_compute; reflexivity | reflexivity].
Defined.

Lemma depth_within_operators_witness :
  exists root,
    parse_to_ast (test_tokenize [OPEN; OPLUS; HOURGLASS; CLOSE]) = Ok root /\
    depth root <= 1.
Proof.
  eexists. split; [vm_compute; reflexivity|].
  refine (proj1 (depth_within_operators
                   (test_tokenize [OPEN; OPLUS; HOURGLASS; CLOSE]) _ _)).
  vm_compute. reflexivity.
Defined.

Lemma issues_are_the_unknown_symbols_witness :
  (forall l, truthy (default (PBool false) (d_error (TEST_HEAP l))) = false) /\
  exists root,
    test_parse [OPLUS; 32; LETTER_X; OTIMES]%N = Ok root /\
    validate_ast TEST_HEAP root = [issue LETTER_X].
Proof.
  assert (H : forall l, truthy (default (PBool false)
                                        (d_error (TEST_HEAP l))) = false).
  { intros l. do 7 (destruct l as [|l]; [reflexivity|]). reflexivity. }
  split; [exact H|].
  eexists. split; [vm_compute; reflexivity|].
  refine (issues_are_the_unknown_symbols py_isspace ascii_lower TEST_ROSETTA
            TEST_HEAP H [OPLUS; 32; LETTER_X; OTIMES]%N _ _).
  vm_compute. reflexivity.
Defined.

Lemma rendering_is_one_line_per_node_witness :
  let root := Node (plain OPLUS OPERATOR 4)
                   [Node (plain HOURGLASS TEMPORAL 2) []] in
  (forall n, In n (subnodes root) -> symbol (token n) <> 10%N) /\
  debug_ast root 0 =
    py "Token(" ++ [OPLUS] ++ py ":operator:p4)" ++ [10%N] ++
    py "  Token(" ++ [HOURGLASS] ++ py ":temporal:p2)" ++ [10%N] /\
  newlines (debug_ast root 0) = 2.
Proof.
  cbv zeta.
  assert (H : forall n,
             In n (subnodes (Node (plain OPLUS OPERATOR 4)
                                  [Node (plain HOURGLASS TEMPORAL 2) []])) ->
             symbol (token n) <> 10%N).
  { intros n [<-|[<-|[]]]; discriminate. }
  split; [exact H|]. split; [reflexivity|].
  exact (proj2 (proj2 (proj2 (rendering_is_one_line_per_node _ 0 H)))).
Defined.

Lemma parse_failures_witness :
  let text := py "maximum recursion depth exceeded" in
  exists e,
    parse_to_ast_bounded
      1 text (test_tokenize [OPLUS; 65; 66; 67; OTIMES]%N) = Raise e /\
    e = recursion_failure text.
Proof.
  cbv zeta. eexists. split; [vm_compute; reflexivity|].
  destruct (parse_failures
              1 (py "maximum recursion depth exceeded")
              (test_tokenize [OPLUS; 65; 66; 67; OTIMES]%N) _ eq_refl)
    as [[H _]|(_ & [(inner & Hb & _)|(root & _ & _ & _ & He)])].
  - vm_compute in H. discriminate.
  - vm_compute in Hb. discriminate.
  - exact He.
Defined.

Lemma operands_alone_are_malformed_witness :
  let tokens := [plain DIAMOND MODIFIER 7; plain HOURGLASS TEMPORAL 2] in
  Forall (fun tok => is_operand tok = true) tokens /\
  2 <= length tokens /\
  parse_to_ast tokens = Raise (reraised (malformed 2)).
Proof.
  cbv zeta.
  assert (H : Forall (fun tok => is_operand tok = true)
                     [plain DIAMOND MODIFIER 7; plain HOURGLASS TEMPORAL 2])
    by (repeat constructor).
  split; [exact H|]. split; [cbn; lia|].
  refine (proj2 (operands_alone_are_malformed _ H _)). cbn. lia.
Defined.

Lemma operands_need_operators_witness :
  exists root,
    parse_to_ast (test_tokenize [ARROW; OPLUS; HOURGLASS]) = Ok root /\
    length (List.filter is_operand
              (test_tokenize [ARROW; OPLUS; HOURGLASS])) <=
    length (List.filter is_operator
              (test_tokenize [ARROW; OPLUS; HOURGLASS])) + 1.
Proof.
  eexists. split; [vm_compute; reflexivity|].
  refine (operands_need_operators
            (test_tokenize [ARROW; OPLUS; HOURGLASS]) _ _).
  vm_compute. reflexivity.
Defined.

Lemma operators_alone_make_a_chain_witness :
  let tokens := [plain OPLUS OPERATOR 4; plain OTIMES OPERATOR 4] in
  let text := py "maximum recursion depth exceeded" in
  tokens <> [] /\ Forall plain_operator tokens /\
  S 0 < length tokens /\
  parse_to_ast_bounded 0 text tokens = Raise (recursion_failure text).
Proof.
  cbv zeta.
  assert (H : Forall plain_operator
                     [plain OPLUS OPERATOR 4; plain OTIMES OPERATOR 4])
    by (repeat constructor; discriminate).
  assert (Hne : [plain OPLUS OPERATOR 4; plain OTIMES OPERATOR 4] <> [])
    by discriminate.
  assert (Hlen : S 0 < length [plain OPLUS OPERATOR 4;
                               plain OTIMES OPERATOR 4]) by (cbn; lia).
  split; [exact Hne|]. split; [exact H|]. split; [exact Hlen|].
  destruct (operators_alone_make_a_chain
              0 (py "maximum recursion depth exceeded") _ Hne H)
    as (root & _ & _ & _ & _ & _ & Hfail).
  exact (Hfail Hlen).
Defined.

Lemma grouping_is_transparent_witness :
  let o := plain OPEN DELIMITER 0 in
  let c := plain CLOSE DELIMITER 0 in
  let a := plain HOURGLASS TEMPORAL 2 in
  is_open o = true /\ is_close c = true /\
  _build_expression_tree [a] = Ok (Node a []) /\
  parse_to_ast [o; a; c] = Ok (Node a []).
Proof.
  cbv zeta. split; [reflexivity|]. split; [reflexivity|].
  split; [reflexivity|].
  exact (proj2 (grouping_is_transparent
                  (plain OPEN DELIMITER 0) (plain CLOSE DELIMITER 0)
                  [plain HOURGLASS TEMPORAL 2] _ eq_refl eq_refl eq_refl)).
Defined.

Lemma infix_precedence_witness :
  let a := plain 65%N CORE 6 in
  let b := plain 66%N CORE 6 in
  let c := plain 67%N CORE 6 in
  let op1 := plain OPLUS OPERATOR 4 in
  let op2 := plain ARROW OPERATOR 1 in
  parse_to_ast [a; op1; b; op2; c] =
  Ok (Node op1 [Node a []; Node op2 [Node b []; Node c []]]).
Proof.
  cbv zeta.
  refine (infix_precedence (plain 65%N CORE 6) (plain 66%N CORE 6)
            (plain 67%N CORE 6) (plain OPLUS OPERATOR 4)
            (plain ARROW OPERATOR 1) eq_refl eq_refl eq_refl eq_refl eq_refl
            _ _); discriminate.
Defined.

Lemma tokens_are_the_visible_characters_witness :
  List.map position (test_tokenize [OPLUS; 32; HOURGLASS]%N) = [0%Z; 2%Z] /\
  List.map symbol (test_tokenize [OPLUS; 32; HOURGLASS]%N) =
    [OPLUS; HOURGLASS].
Proof.
  destruct (tokens_are_the_visible_characters py_isspace ascii_lower
              TEST_ROSETTA TEST_HEAP [OPLUS; 32; HOURGLASS]%N)
    as (_ & Hposition & Hsymbol & _).
  split; [exact Hposition | exact Hsymbol].
Defined.

Lemma whitespace_is_insignificant_witness :
  exists root root',
    test_parse [OPLUS; 32; LETTER_X; 9; OTIMES]%N = Ok root /\
    test_parse [OPLUS; LETTER_X; OTIMES] = Ok root' /\
    map_node erase_position root' = map_node erase_position root.
Proof.
  eexists.
  destruct (proj1 (whitespace_is_insignificant py_isspace ascii_lower
                     TEST_ROSETTA TEST_HEAP
                     [OPLUS; 32; LETTER_X; 9; OTIMES]%N) _ eq_refl)
    as (root' & Hp & He).
  exists root'. split; [reflexivity|]. split; [exact Hp | exact He].
Defined.
